(** * Knowledge-engine dashboard: graph engine, navigation panel, viewer

    A shallow embedding of the browser-side classes of the dashboard
    ([KnowledgeGraph], [Sidebar], [InsightViewer], [KnowledgeEngineApp])
    and the properties of the specification that concern them.

    Conventions of the embedding.
    - A JavaScript object is a record; a field that may be [undefined] or
      [null] is an [option].
    - JavaScript numbers are rationals ([Q]) where the code divides, and
      [nat] / [Z] where it only counts or compares integers.
    - The object used as a dictionary in [render] is a [gmap string _];
      node ids are ordinary keys (no id is [__proto__]) and are usable in
      a CSS id selector, as the ids the backend derives from file names
      are.
    - An instance method is a function from the instance's state to its
      new state; a method that may throw also returns a [completion].
    - Calls into the environment (callbacks, [fetch], timers) are
      recorded in an explicit trace or queue of the state. *)

From Stdlib Require Import ZArith QArith Qminmax Qround List Ascii String Lia
  Bool.
From stdpp Require Import base gmap strings list.
Import ListNotations.

Local Open Scope string_scope.
Local Open Scope list_scope.

(** ** JavaScript values *)
Module JS.

(** Truthiness of a string: only the empty string is falsy. *)
Definition truthy (s : string) : bool := negb (String.eqb s "").

(** Truthiness of a string-or-null value. *)
Definition truthy_opt (o : option string) : bool :=
  match o with Some s => truthy s | None => false end.

(** [o || d] on a string-or-undefined value. *)
Definition or_else (o : option string) (d : string) : string :=
  match o with Some s => if truthy s then s else d | None => d end.

(** A counter cell of a dictionary: a number, or [NaN]. *)
Inductive num := Num (n : nat) | NaN.

(** [cell++] where [cell] is the current content of the slot
    ([None] for [undefined]): [undefined++] and [NaN++] store [NaN]. *)
Definition incr (cell : option num) : num :=
  match cell with Some (Num n) => Num (S n) | _ => NaN end.

(** [cell || 0] read back as a count. *)
Definition or_zero (cell : option num) : nat :=
  match cell with Some (Num n) => n | _ => 0 end.

(** How a call completed. *)
Inductive completion := Normal | Thrown.

(** [haystack.includes(needle)]. *)
Fixpoint includes (haystack needle : string) : bool :=
  String.prefix needle haystack
  || match haystack with
     | EmptyString => false
     | String _ rest => includes rest needle
     end.

End JS.

(** ** The graph engine: class [KnowledgeGraph] *)
Module KnowledgeGraph.
Import JS.

(** A node object, as received in a snapshot and as kept in
    [this.nodes].  [connections] is written by [render]; the position
    fields are written by the force simulation and the drag handlers. *)
Record node := Node {
  node_id : string;
  node_label : string;
  node_theme : string;
  novelty_score : option Q;
  node_color : option string;
  connections : option nat;
  x : option Q;
  y : option Q;
  fx : option Q;
  fy : option Q
}.

(** An edge of a snapshot; [render] copies exactly these four fields. *)
Record link := Link {
  source : string;
  target : string;
  display : string;
  type : string
}.

(** The payload of [/api/vault/graph]. *)
Record snapshot := Snapshot {
  snap_nodes : list node;
  snap_edges : list link;
  snap_orphans : list string
}.

Definition set_connections (c : nat) (n : node) : node :=
  {| node_id := node_id n; node_label := node_label n;
     node_theme := node_theme n; novelty_score := novelty_score n;
     node_color := node_color n; connections := Some c;
     x := x n; y := y n; fx := fx n; fy := fy n |}.

Definition set_position (px py : option Q) (n : node) : node :=
  {| node_id := node_id n; node_label := node_label n;
     node_theme := node_theme n; novelty_score := novelty_score n;
     node_color := node_color n; connections := connections n;
     x := px; y := py; fx := fx n; fy := fy n |}.

Definition set_pin (pfx pfy : option Q) (n : node) : node :=
  {| node_id := node_id n; node_label := node_label n;
     node_theme := node_theme n; novelty_score := novelty_score n;
     node_color := node_color n; connections := connections n;
     x := x n; y := y n; fx := pfx; fy := pfy |}.

(** *** Connection counting (the three [forEach] loops of [render]) *)

(** [this.nodes.forEach(node => { connectionCount[node.id] = 0; })] *)
Definition count_init (ns : list node) : gmap string num :=
  foldl (fun m n => <[node_id n := Num 0]> m) ∅ ns.

(** [connectionCount[k]++] *)
Definition bump (k : string) (m : gmap string num) : gmap string num :=
  <[k := incr (m !! k)]> m.

(** [this.links.forEach(link => { connectionCount[link.source]++;
    connectionCount[link.target]++; })] *)
Definition count_links (ls : list link) (m : gmap string num)
  : gmap string num :=
  foldl (fun m l => bump (target l) (bump (source l) m)) m ls.

Definition connectionCount (ns : list node) (ls : list link)
  : gmap string num :=
  count_links ls (count_init ns).

(** [node.connections = connectionCount[node.id] || 0] for every node. *)
Definition assign_connections (ns : list node) (ls : list link)
  : list node :=
  let cc := connectionCount ns ls in
  map (fun n => set_connections (or_zero (cc !! node_id n)) n) ns.

(** *** Radius encoding *)

(** The current [getNodeRadius]: keyed on [node.connections]. *)
Definition baseRadius : Q := 6.
Definition maxRadius : Q := 25.

(** [node.connections || 0] *)
Definition connection_count (n : node) : nat :=
  match connections n with Some c => c | None => 0%nat end.

Definition getNodeRadius (n : node) : Q :=
  (baseRadius
   + inject_Z (Z.of_nat (Nat.min (connection_count n) 15))
     * (maxRadius - baseRadius) / 15)%Q.

(** The earlier [getNodeRadius] of the first class definition: keyed on
    [node.novelty_score] ([score || 0.5] clamped to [0.5, 1.0]). *)
Definition legacy_score (n : node) : Q :=
  let s := match novelty_score n with
           | Some s => if Qeq_bool s 0 then (1 # 2)%Q else s
           | None => (1 # 2)%Q
           end in
  Qmax (1 # 2) (Qmin 1 s).

Definition getNodeRadius_legacy (n : node) : Q :=
  (5 + (legacy_score n - (1 # 2)) * 20)%Q.

(** [d.connections === 0]: the test the rendering code uses to style a
    node as an orphan. *)
Definition is_orphan (n : node) : bool :=
  match connections n with Some O => true | _ => false end.

(** *** Visual elements

    The part of the SVG document the class reads and writes: one [g]
    group per node holding its circles, one [line] per edge, one [text]
    per label.  [dimmed] is the CSS class of that name. *)

(** A [circle.node-circle].  [c_datum] is the datum bound to the circle
    itself: [append] copies the group's datum at creation, [select]
    propagates the group's current datum, [selectAll] leaves it. *)
Record circle := Circle {
  c_datum : node;
  attr_r : Q;
  attr_fill : string;
  attr_stroke : string;
  attr_stroke_width : Q;
  attr_stroke_dasharray : string;
  attr_opacity : Q;
  attr_filter : option string
}.

(** A [g.node] group; [el_id] is its [id] attribute, set on entry. *)
Record gnode := GNode {
  el_id : string;
  g_datum : node;
  circles : list circle;
  g_dimmed : bool
}.

(** A [text.node-label]. *)
Record text := Text {
  t_datum : node;
  t_text : string;
  t_dimmed : bool
}.

(** A link after [d3.forceLink] has replaced its endpoint ids by the
    node objects they name.  Only fields of the endpoints that never
    change after [render] ([id], [theme]) are read through a link. *)
Record rlink := RLink {
  rsource : node;
  rtarget : node;
  rdisplay : string;
  rtype : string
}.

(** A [line.link]. *)
Record line := Line {
  l_datum : rlink;
  l_stroke_width : Q;
  l_stroke : string;
  l_opacity : Q;
  l_dimmed : bool
}.

(** **** The keyed data join of d3 ([selection.data(data, key).join])

    Existing elements are indexed by the key of their current datum
    (the first element wins, later duplicates leave the document); the
    new data are then matched in order, each datum taking the element
    indexed under its key, if any, and removing it from the index; an
    unmatched datum creates an element.  The result is in data order. *)
Section Join.
Context {D E : Type}.
Variable key_of_element : E -> string.
Variable key_of_datum : D -> string.
Variable rebind : D -> E -> E.
Variable create : D -> E.

Fixpoint index_elements (els : list E) (m : gmap string E)
  : gmap string E :=
  match els with
  | [] => m
  | e :: rest =>
      index_elements rest
        (match m !! key_of_element e with
         | Some _ => m
         | None => <[key_of_element e := e]> m
         end)
  end.

Fixpoint bind (avail : gmap string E) (data : list D) : list E :=
  match data with
  | [] => []
  | d :: rest =>
      match avail !! key_of_datum d with
      | Some e => rebind d e :: bind (delete (key_of_datum d) avail) rest
      | None => create d :: bind avail rest
      end
  end.

Definition join (els : list E) (data : list D) : list E :=
  bind (index_elements els ∅) data.
End Join.

(** [renderLinks] *)
Definition key_part (n : node) : string :=
  if truthy (node_id n) then node_id n else "[object Object]".

Definition link_key (l : rlink) : string :=
  key_part (rsource l) ++ "-" ++ key_part (rtarget l).

(** Every line of the merged selection gets [class="link"], which
    replaces the whole class attribute and with it a [dimmed] class. *)
Definition style_line (l : rlink) : line :=
  {| l_datum := l; l_stroke_width := 3 # 2; l_stroke := "#e2e8f0";
     l_opacity := 6 # 10; l_dimmed := false |}.

Definition renderLinks (old : list line) (ls : list rlink) : list line :=
  join (fun e => link_key (l_datum e)) link_key
       (fun l e => style_line l) style_line old ls.

(** [renderNodes]: the join on [g.node] keyed by id, then one more
    circle appended to every group of the merged selection. *)
Definition baseline_circle (d : node) : circle :=
  {| c_datum := d;
     attr_r := getNodeRadius d;
     attr_fill := or_else (node_color d) "#3b82f6";
     attr_stroke := if is_orphan d then "#cbd5e1" else "#ffffff";
     attr_stroke_width := 2;
     attr_stroke_dasharray := if is_orphan d then "4,4" else "0";
     attr_opacity := if is_orphan d then 6 # 10 else 1;
     attr_filter := None |}.

Definition append_circle (g : gnode) : gnode :=
  {| el_id := el_id g; g_datum := g_datum g;
     circles := circles g ++ [baseline_circle (g_datum g)];
     g_dimmed := g_dimmed g |}.

Definition renderNodes (old : list gnode) (ns : list node) : list gnode :=
  map append_circle
    (join (fun g => node_id (g_datum g)) node_id
          (fun d g => {| el_id := el_id g; g_datum := d;
                         circles := circles g; g_dimmed := g_dimmed g |})
          (fun d => {| el_id := "node-" ++ node_id d; g_datum := d;
                       circles := []; g_dimmed := false |})
          old ns).

(** [truncateLabel] and [renderLabels] *)
Definition truncateLabel (s : string) (n : nat) : string :=
  if (String.length s <=? n)%nat then s else String.substring 0 n s ++ "...".

Definition renderLabels (old : list text) (ns : list node) : list text :=
  join (fun t => node_id (t_datum t)) node_id
       (fun d t => {| t_datum := d; t_text := truncateLabel (node_label d) 15;
                      t_dimmed := t_dimmed t |})
       (fun d => {| t_datum := d; t_text := truncateLabel (node_label d) 15;
                    t_dimmed := false |})
       old ns.

(** *** Instance state *)

(** The force simulation object, as far as the class drives it.
    [restarts] counts the calls of [restart()]. *)
Record simulation := Simulation {
  center : Q * Q;
  alpha : Q;
  alphaTarget : Q;
  restarts : nat
}.

Record state := State {
  width : Z;
  height : Z;
  svg_size : option (Z * Z);
  sim : option simulation;
  nodes : list node;
  links : list link;
  graph : option snapshot;
  currentTheme : option string;
  linkElements : option (list line);
  nodeElements : option (list gnode);
  labelElements : option (list text)
}.

(** The state the constructor leaves, for an SVG element of client
    size [w] x [h]. *)
Definition constructed (w h : Z) : state :=
  {| width := w; height := h; svg_size := None; sim := None;
     nodes := []; links := []; graph := None; currentTheme := None;
     linkElements := None; nodeElements := None; labelElements := None |}.

Definition with_model (g : snapshot) (ns : list node) (ls : list link)
  (st : state) : state :=
  {| width := width st; height := height st; svg_size := svg_size st;
     sim := sim st; nodes := ns; links := ls; graph := Some g;
     currentTheme := currentTheme st; linkElements := linkElements st;
     nodeElements := nodeElements st; labelElements := labelElements st |}.

Definition with_nodes (ns : list node) (st : state) : state :=
  {| width := width st; height := height st; svg_size := svg_size st;
     sim := sim st; nodes := ns; links := links st; graph := graph st;
     currentTheme := currentTheme st; linkElements := linkElements st;
     nodeElements := nodeElements st; labelElements := labelElements st |}.

Definition with_sim (s : option simulation) (st : state) : state :=
  {| width := width st; height := height st; svg_size := svg_size st;
     sim := s; nodes := nodes st; links := links st; graph := graph st;
     currentTheme := currentTheme st; linkElements := linkElements st;
     nodeElements := nodeElements st; labelElements := labelElements st |}.

Definition with_size (w h : Z) (st : state) : state :=
  {| width := w; height := h; svg_size := Some (w, h);
     sim := sim st; nodes := nodes st; links := links st; graph := graph st;
     currentTheme := currentTheme st; linkElements := linkElements st;
     nodeElements := nodeElements st; labelElements := labelElements st |}.

Definition with_theme (t : option string) (st : state) : state :=
  {| width := width st; height := height st; svg_size := svg_size st;
     sim := sim st; nodes := nodes st; links := links st; graph := graph st;
     currentTheme := t; linkElements := linkElements st;
     nodeElements := nodeElements st; labelElements := labelElements st |}.

Definition with_elements (le : option (list line))
  (ne : option (list gnode)) (te : option (list text)) (st : state)
  : state :=
  {| width := width st; height := height st; svg_size := svg_size st;
     sim := sim st; nodes := nodes st; links := links st; graph := graph st;
     currentTheme := currentTheme st; linkElements := le;
     nodeElements := ne; labelElements := te |}.

(** *** The force simulation, as [render] and the handlers use it *)

(** [d3.forceLink(links).id(d => d.id)]: endpoint ids are looked up in
    a map built from the node array (a later node with the same id
    replaces an earlier one); an id that names no node throws. *)
Definition node_by_id (ns : list node) : gmap string node :=
  foldl (fun m n => <[node_id n := n]> m) ∅ ns.

Definition resolve (m : gmap string node) (l : link) : option rlink :=
  match m !! source l, m !! target l with
  | Some s, Some t =>
      Some {| rsource := s; rtarget := t;
              rdisplay := display l; rtype := type l |}
  | _, _ => None
  end.

Fixpoint resolve_all (m : gmap string node) (ls : list link)
  : option (list rlink) :=
  match ls with
  | [] => Some []
  | l :: rest =>
      match resolve m l, resolve_all m rest with
      | Some r, Some rs => Some (r :: rs)
      | _, _ => None
      end
  end.

Definition half (n : Z) : Q := (inject_Z n / 2)%Q.

Section Engine.
(** The initial layout of d3 for the node of a given index (a spiral
    around the origin); its values are irrational, so it is kept as a
    parameter. *)
Variable phyllotaxis : nat -> Q * Q.

(** [d3.forceSimulation(nodes)] on one node: a pinned coordinate is
    taken over, and a node that still lacks a coordinate is placed at
    its initial position. *)
Definition initialize_node (i : nat) (n : node) : node :=
  let px := match fx n with Some v => Some v | None => x n end in
  let py := match fy n with Some v => Some v | None => y n end in
  match px, py with
  | Some _, Some _ => set_position px py n
  | _, _ =>
      set_position (Some (fst (phyllotaxis i)))
                   (Some (snd (phyllotaxis i))) n
  end.

Definition initializeNodes (ns : list node) : list node :=
  imap initialize_node ns.

(** [render(graphData)] *)
Definition copy_edge (d : link) : link :=
  {| source := source d; target := target d;
     display := display d; type := type d |}.

Definition render (g : snapshot) (st : state) : state * completion :=
  let ls := map copy_edge (snap_edges g) in
  let ns := initializeNodes (assign_connections (snap_nodes g) ls) in
  let st1 := with_model g ns ls st in
  match resolve_all (node_by_id ns) ls with
  | None => (st1, Thrown)
  | Some rls =>
      let s := {| center := (half (width st), half (height st));
                  alpha := 1; alphaTarget := 0; restarts := 0 |} in
      (with_elements
         (Some (renderLinks (default [] (linkElements st)) rls))
         (Some (renderNodes (default [] (nodeElements st)) ns))
         (Some (renderLabels (default [] (labelElements st)) ns))
         (with_sim (Some s) st1),
       Normal)
  end.

(** What [options.onRender] is given: node, link and orphan counts. *)
Definition render_stats (g : snapshot) (st : state) : nat * nat * nat :=
  (length (nodes st), length (links st), length (snap_orphans g)).
End Engine.

(** *** Theme filter *)

(** [this.currentTheme && d.theme !== this.currentTheme] *)
Definition node_dimmed (cur : option string) (d : node) : bool :=
  match cur with
  | Some t => truthy t && negb (String.eqb (node_theme d) t)
  | None => false
  end.

(** The callback of the link selection. *)
Definition link_dimmed (cur : option string) (l : rlink) : bool :=
  match cur with
  | Some t =>
      if truthy t
      then negb (String.eqb (node_theme (rsource l)) t)
           && negb (String.eqb (node_theme (rtarget l)) t)
      else false
  | None => false
  end.

Definition dim_gnode (cur : option string) (g : gnode) : gnode :=
  {| el_id := el_id g; g_datum := g_datum g; circles := circles g;
     g_dimmed := node_dimmed cur (g_datum g) |}.

Definition dim_text (cur : option string) (t : text) : text :=
  {| t_datum := t_datum t; t_text := t_text t;
     t_dimmed := node_dimmed cur (t_datum t) |}.

Definition dim_line (cur : option string) (l : line) : line :=
  {| l_datum := l_datum l; l_stroke_width := l_stroke_width l;
     l_stroke := l_stroke l; l_opacity := l_opacity l;
     l_dimmed := link_dimmed cur (l_datum l) |}.

Definition updateHighlight (st : state) : state :=
  let cur := currentTheme st in
  with_elements
    (option_map (map (dim_line cur)) (linkElements st))
    (option_map (map (dim_gnode cur)) (nodeElements st))
    (option_map (map (dim_text cur)) (labelElements st))
    st.

Definition filterByTheme (theme : option string) (st : state) : state :=
  updateHighlight (with_theme theme st).

Definition clearFilter (st : state) : state :=
  updateHighlight (with_theme None st).

(** *** Search highlight *)

(** The first statement of [highlightSearchResults], on one circle. *)
Definition reset_circle (c : circle) : circle :=
  {| c_datum := c_datum c;
     attr_r := getNodeRadius (c_datum c);
     attr_fill := attr_fill c;
     attr_stroke := "#ffffff";
     attr_stroke_width := 2;
     attr_stroke_dasharray := attr_stroke_dasharray c;
     attr_opacity := 7 # 10;
     attr_filter := attr_filter c |}.

Definition reset_group (g : gnode) : gnode :=
  {| el_id := el_id g; g_datum := g_datum g;
     circles := map reset_circle (circles g); g_dimmed := g_dimmed g |}.

(** The body of the [forEach], on the circle [select] returns. *)
Definition emphasize_circle (d : node) (c : circle) : circle :=
  {| c_datum := d;
     attr_r := (getNodeRadius d + 6)%Q;
     attr_fill := attr_fill c;
     attr_stroke := "#ffd700";
     attr_stroke_width := 20;
     attr_stroke_dasharray := attr_stroke_dasharray c;
     attr_opacity := 1;
     attr_filter := Some "brightness(1.2)" |}.

Definition emphasize_group (g : gnode) : gnode :=
  match circles g with
  | [] => g
  | c :: rest =>
      {| el_id := el_id g; g_datum := g_datum g;
         circles := emphasize_circle (g_datum g) c :: rest;
         g_dimmed := g_dimmed g |}
  end.

(** [this.svg.select('#node-' + id)]: the first group with that id. *)
Fixpoint emphasize_first (sel : string) (gs : list gnode) : list gnode :=
  match gs with
  | [] => []
  | g :: rest =>
      if String.eqb (el_id g) sel
      then emphasize_group g :: rest
      else g :: emphasize_first sel rest
  end.

Definition highlight_groups (nodeIds : list string) (gs : list gnode)
  : list gnode :=
  foldl (fun gs nodeId => emphasize_first ("node-" ++ nodeId) gs)
        (map reset_group gs) nodeIds.

Definition highlightSearchResults (nodeIds : list string) (st : state)
  : state :=
  with_elements (linkElements st)
    (option_map (highlight_groups nodeIds) (nodeElements st))
    (labelElements st) st.

(** *** Resize *)

(** [onWindowResize], given the client size the SVG element reports. *)
Definition recenter (w h : Z) (s : simulation) : simulation :=
  {| center := (half w, half h); alpha := 3 # 10;
     alphaTarget := alphaTarget s; restarts := S (restarts s) |}.

Definition onWindowResize (newWidth newHeight : Z) (st : state) : state :=
  if negb (newWidth =? width st)%Z || negb (newHeight =? height st)%Z
  then with_sim (option_map (recenter newWidth newHeight) (sim st))
                (with_size newWidth newHeight st)
  else st.

(** *** Dragging and simulation ticks

    The drag handlers act on the node object bound to the dragged
    group, which after a completed [render] is the object at the same
    index of [this.nodes]. *)
Definition update_node (i : nat) (f : node -> node) (st : state) : state :=
  with_nodes (alter f i (nodes st)) st.

Definition with_alphaTarget (a : Q) (restart : bool) (s : simulation)
  : simulation :=
  {| center := center s; alpha := alpha s; alphaTarget := a;
     restarts := if restart then S (restarts s) else restarts s |}.

Definition dragStart (active : bool) (i : nat) (st : state) : state :=
  let st1 := if active then st
             else with_sim (option_map (with_alphaTarget (3 # 10) true)
                                       (sim st)) st in
  update_node i (fun d => set_pin (x d) (y d) d) st1.

Definition drag (i : nat) (ex ey : Q) (st : state) : state :=
  update_node i (set_pin (Some ex) (Some ey)) st.

Definition dragEnd (active : bool) (i : nat) (st : state) : state :=
  let st1 := if active then st
             else with_sim (option_map (with_alphaTarget 0 false)
                                       (sim st)) st in
  update_node i (set_pin None None) st1.

Section Tick.
(** Where the forces move an unpinned node in one tick. *)
Variable physics : list node -> nat -> Q * Q.

(** One tick of d3: a pinned coordinate snaps to its pin, a free one
    moves as the forces say. *)
Definition tick_node (ns : list node) (i : nat) (n : node) : node :=
  set_position
    (Some (match fx n with Some v => v | None => fst (physics ns i) end))
    (Some (match fy n with Some v => v | None => snd (physics ns i) end))
    n.

Definition tick (st : state) : state :=
  with_nodes (imap (tick_node (nodes st)) (nodes st)) st.
End Tick.

(** *** Reachable states of an instance *)
Section Reachable.
Variable phyllotaxis : nat -> Q * Q.
Variable physics : list node -> nat -> Q * Q.

Inductive step : state -> state -> Prop :=
| step_render g st : step st (fst (render phyllotaxis g st))
| step_filter t st : step st (filterByTheme t st)
| step_clear st : step st (clearFilter st)
| step_highlight ids st : step st (highlightSearchResults ids st)
| step_resize w h st : step st (onWindowResize w h st)
| step_dragStart a i st : step st (dragStart a i st)
| step_drag i ex ey st : step st (drag i ex ey st)
| step_dragEnd a i st : step st (dragEnd a i st)
| step_tick st : step st (tick physics st).

Inductive reachable : state -> Prop :=
| reachable_constructed w h : reachable (constructed w h)
| reachable_step st st' : reachable st -> step st st' -> reachable st'.
End Reachable.

(** *** Quantities the specification speaks of *)

(** The number of edges with [k] as source, resp. as target. *)
Definition out_count (k : string) (ls : list link) : nat :=
  length (List.filter (fun e => String.eqb (source e) k) ls).

Definition in_count (k : string) (ls : list link) : nat :=
  length (List.filter (fun e => String.eqb (target e) k) ls).

(** The edges that have [k] as source or as target. *)
Definition edges_touching (k : string) (ls : list link) : list link :=
  List.filter (fun e => String.eqb (source e) k || String.eqb (target e) k)
              ls.

(** The edges from [k] to itself. *)
Definition self_loops (k : string) (ls : list link) : list link :=
  List.filter (fun e => String.eqb (source e) k && String.eqb (target e) k)
              ls.

Definition position (n : node) : option Q * option Q := (x n, y n).

(** Every node id of [g0] is a node id of [g]. *)
Definition superset (g0 g : snapshot) : Prop :=
  forall n, In n (snap_nodes g0) ->
            exists n', In n' (snap_nodes g) /\ node_id n' = node_id n.

(** The stroke, stroke width, opacity and filter of every circle. *)
Definition look (st : state)
  : option (list (list (string * Q * Q * option string))) :=
  option_map
    (map (fun g => map (fun c => (attr_stroke c, attr_stroke_width c,
                                  attr_opacity c, attr_filter c))
                       (circles g)))
    (nodeElements st).

(** The flags the theme filter controls, element by element. *)
Definition dim_state (st : state)
  : option (list bool) * option (list bool) * option (list bool) :=
  (option_map (map l_dimmed) (linkElements st),
   option_map (map g_dimmed) (nodeElements st),
   option_map (map t_dimmed) (labelElements st)).

(** No element carries the [dimmed] class. *)
Definition undimmed (st : state) : Prop :=
  (forall ls, linkElements st = Some ls ->
              forall l, In l ls -> l_dimmed l = false)
  /\ (forall gs, nodeElements st = Some gs ->
                 forall g, In g gs -> g_dimmed g = false)
  /\ (forall ts, labelElements st = Some ts ->
                 forall t, In t ts -> t_dimmed t = false).

(** Position continuity, in the words of the specification: ingesting
    a superset of the snapshot ingested before leaves every node that
    was already present where it is. *)
Definition keeps_positions (phyllotaxis : nat -> Q * Q)
  (physics : list node -> nat -> Q * Q) : Prop :=
  forall (st : state) (g0 g : snapshot),
    reachable phyllotaxis physics st ->
    graph st = Some g0 ->
    superset g0 g ->
    forall n n',
      In n (nodes st) ->
      In n' (nodes (fst (render phyllotaxis g st))) ->
      node_id n' = node_id n ->
      position n' = position n.

(** *** Further notions used in the properties of the engine *)

(** What the backend says about a node, as opposed to what the engine
    adds to it. *)
Definition payload (n : node)
  : string * string * string * option Q * option string :=
  (node_id n, node_label n, node_theme n, novelty_score n, node_color n).

(** Every end of every edge is the id of a node of the snapshot. *)
Definition endpoints_known (g : snapshot) : Prop :=
  forall e, In e (snap_edges g) ->
    (exists n, In n (snap_nodes g) /\ node_id n = source e)
    /\ (exists n, In n (snap_nodes g) /\ node_id n = target e).

(** Every node group carries the id made from its datum, and at least
    one circle. *)
Definition well_tagged (gs : list gnode) : Prop :=
  forall g, In g gs ->
    el_id g = ("node-" ++ node_id (g_datum g))%string /\ circles g <> [].

(** The same element, bound to the same datum, with as many circles. *)
Definition same_group (g g' : gnode) : Prop :=
  el_id g' = el_id g /\ g_datum g' = g_datum g
  /\ g_dimmed g' = g_dimmed g
  /\ length (circles g') = length (circles g).

(** [nodeIds.includes(d.id)] for the datum of a group. *)
Definition listed (nodeIds : list string) (g : gnode) : bool :=
  existsb (String.eqb (node_id (g_datum g))) nodeIds.

(** What [highlightSearchResults(nodeIds)] does to one group when its
    node is in the list, and when it is not. *)
Definition mark (nodeIds : list string) (g : gnode) : gnode :=
  if listed nodeIds g then emphasize_group (reset_group g)
  else reset_group g.

(** The same, with the groups picked by their element ids, as
    [emphasize_first] picks them. *)
Definition selected (sels : list string) (g : gnode) : bool :=
  existsb (String.eqb (el_id g)) sels.

Definition mark_selected (sels : list string) (g : gnode) : gnode :=
  if selected sels g then emphasize_group (reset_group g)
  else reset_group g.

(** A [resize] event of the window runs [onWindowResize] twice: once for
    the listener the constructor adds, once for the listener the page
    script adds. *)
Definition resize_event (newWidth newHeight : Z) (st : state) : state :=
  onWindowResize newWidth newHeight
    (onWindowResize newWidth newHeight st).

End KnowledgeGraph.

(** ** The navigation panel: class [Sidebar] *)
Module Sidebar.
Import JS.

(** One entry of [data.results]. *)
Record result := Result {
  res_id : string;
  res_label : string;
  res_theme : string;
  res_score : option Q;
  res_snippet : option string
}.

(** The body of a search response. *)
Record search_data := SearchData {
  data_count : nat;
  data_semantic : bool;
  data_results : list result
}.

(** The parameters [performSearch] puts into the request URL. *)
Record request := Request {
  req_q : string;
  req_theme : option string;
  req_semantic : bool;
  req_limit : nat
}.

(** A [.theme-item] element. *)
Record theme_item := ThemeItem {
  item_text : string;
  item_active : bool
}.

(** The fields of the instance. *)
Record fields := Fields {
  selectedTheme : option string;
  searchQuery : string;
  searchResults : list result;
  searchTimeout : option nat;
  onThemeClick : bool;
  onSearch : bool
}.

(** The elements of the page the instance reads and writes. *)
Record page := Page {
  searchInput_value : string;
  searchClear_active : bool;
  semanticToggle_checked : bool;
  searchResults_shown : bool;
  searchResultsList : list result;
  searchResultsCount : option nat;
  searchResultsMode : option bool;
  theme_items : list theme_item
}.

Record sidebar := Sidebar { this : fields; doc : page }.

(** What the instance does to its surroundings. *)
Inductive event :=
| EvSearch (ids : option (list string))
| EvThemeClick (themeName : option string) (at_call : sidebar)
| EvFetch (r : request)
| EvConsoleError.

(** The instance in its environment: the clock and the pending timers
    ([handle], [deadline]) of the window, the search requests issued so
    far and which of them are still unanswered, and the trace. *)
Record world := World {
  sb : sidebar;
  now : nat;
  next_handle : nat;
  timers : list (nat * nat);
  issued : list request;
  inflight : list nat;
  trace : list event
}.

Definition with_sb (s : sidebar) (w : world) : world :=
  {| sb := s; now := now w; next_handle := next_handle w;
     timers := timers w; issued := issued w; inflight := inflight w;
     trace := trace w |}.

Definition emit (e : event) (w : world) : world :=
  {| sb := sb w; now := now w; next_handle := next_handle w;
     timers := timers w; issued := issued w; inflight := inflight w;
     trace := trace w ++ [e] |}.

Definition with_fields (f : fields) (s : sidebar) : sidebar :=
  {| this := f; doc := doc s |}.

Definition with_page (p : page) (s : sidebar) : sidebar :=
  {| this := this s; doc := p |}.

Definition set_searchQuery (q : string) (s : sidebar) : sidebar :=
  with_fields
    {| selectedTheme := selectedTheme (this s); searchQuery := q;
       searchResults := searchResults (this s);
       searchTimeout := searchTimeout (this s);
       onThemeClick := onThemeClick (this s);
       onSearch := onSearch (this s) |} s.

Definition set_searchResults (rs : list result) (s : sidebar) : sidebar :=
  with_fields
    {| selectedTheme := selectedTheme (this s);
       searchQuery := searchQuery (this s); searchResults := rs;
       searchTimeout := searchTimeout (this s);
       onThemeClick := onThemeClick (this s);
       onSearch := onSearch (this s) |} s.

Definition set_searchTimeout (h : option nat) (s : sidebar) : sidebar :=
  with_fields
    {| selectedTheme := selectedTheme (this s);
       searchQuery := searchQuery (this s);
       searchResults := searchResults (this s); searchTimeout := h;
       onThemeClick := onThemeClick (this s);
       onSearch := onSearch (this s) |} s.

Definition set_selectedTheme (t : option string) (s : sidebar) : sidebar :=
  with_fields
    {| selectedTheme := t; searchQuery := searchQuery (this s);
       searchResults := searchResults (this s);
       searchTimeout := searchTimeout (this s);
       onThemeClick := onThemeClick (this s);
       onSearch := onSearch (this s) |} s.

Definition set_input_value (v : string) (s : sidebar) : sidebar :=
  with_page
    {| searchInput_value := v;
       searchClear_active := searchClear_active (doc s);
       semanticToggle_checked := semanticToggle_checked (doc s);
       searchResults_shown := searchResults_shown (doc s);
       searchResultsList := searchResultsList (doc s);
       searchResultsCount := searchResultsCount (doc s);
       searchResultsMode := searchResultsMode (doc s);
       theme_items := theme_items (doc s) |} s.

Definition set_clear_active (b : bool) (s : sidebar) : sidebar :=
  with_page
    {| searchInput_value := searchInput_value (doc s);
       searchClear_active := b;
       semanticToggle_checked := semanticToggle_checked (doc s);
       searchResults_shown := searchResults_shown (doc s);
       searchResultsList := searchResultsList (doc s);
       searchResultsCount := searchResultsCount (doc s);
       searchResultsMode := searchResultsMode (doc s);
       theme_items := theme_items (doc s) |} s.

Definition set_semantic (b : bool) (s : sidebar) : sidebar :=
  with_page
    {| searchInput_value := searchInput_value (doc s);
       searchClear_active := searchClear_active (doc s);
       semanticToggle_checked := b;
       searchResults_shown := searchResults_shown (doc s);
       searchResultsList := searchResultsList (doc s);
       searchResultsCount := searchResultsCount (doc s);
       searchResultsMode := searchResultsMode (doc s);
       theme_items := theme_items (doc s) |} s.

Definition set_theme_items (items : list theme_item) (s : sidebar)
  : sidebar :=
  with_page
    {| searchInput_value := searchInput_value (doc s);
       searchClear_active := searchClear_active (doc s);
       semanticToggle_checked := semanticToggle_checked (doc s);
       searchResults_shown := searchResults_shown (doc s);
       searchResultsList := searchResultsList (doc s);
       searchResultsCount := searchResultsCount (doc s);
       searchResultsMode := searchResultsMode (doc s);
       theme_items := items |} s.

(** [hideSearchResults] *)
Definition hideSearchResults (s : sidebar) : sidebar :=
  with_page
    {| searchInput_value := searchInput_value (doc s);
       searchClear_active := searchClear_active (doc s);
       semanticToggle_checked := semanticToggle_checked (doc s);
       searchResults_shown := false;
       searchResultsList := [];
       searchResultsCount := searchResultsCount (doc s);
       searchResultsMode := searchResultsMode (doc s);
       theme_items := theme_items (doc s) |} s.

(** [renderSearchResults(data)] *)
Definition renderSearchResults (d : search_data) (s : sidebar) : sidebar :=
  with_page
    {| searchInput_value := searchInput_value (doc s);
       searchClear_active := searchClear_active (doc s);
       semanticToggle_checked := semanticToggle_checked (doc s);
       searchResults_shown := true;
       searchResultsList := data_results d;
       searchResultsCount := Some (data_count d);
       searchResultsMode := Some (data_semantic d);
       theme_items := theme_items (doc s) |} s.

(** [if (this.onSearch) this.onSearch(ids)] *)
Definition call_onSearch (ids : option (list string)) (w : world) : world :=
  if onSearch (this (sb w)) then emit (EvSearch ids) w else w.

(** *** Timers of the window *)

(** [clearTimeout(h)] *)
Definition clearTimeout (h : option nat) (w : world) : world :=
  match h with
  | None => w
  | Some h =>
      {| sb := sb w; now := now w; next_handle := next_handle w;
         timers := List.filter (fun t => negb (fst t =? h)%nat) (timers w);
         issued := issued w; inflight := inflight w; trace := trace w |}
  end.

(** [this.searchTimeout = setTimeout(() => this.performSearch(), delay)] *)
Definition setTimeout (delay : nat) (w : world) : world :=
  {| sb := set_searchTimeout (Some (next_handle w)) (sb w);
     now := now w; next_handle := S (next_handle w);
     timers := timers w ++ [(next_handle w, now w + delay)];
     issued := issued w; inflight := inflight w; trace := trace w |}.

(** *** Search *)

(** [performSearch] up to its first [await]. *)
Definition performSearch (w : world) : world :=
  let s := sb w in
  if negb (truthy (searchQuery (this s)))
  then with_sb (hideSearchResults s) (call_onSearch None w)
  else
    let r := {| req_q := searchQuery (this s);
                req_theme := if truthy_opt (selectedTheme (this s))
                             then selectedTheme (this s) else None;
                req_semantic := semanticToggle_checked (doc s);
                req_limit := 25 |} in
    {| sb := s; now := now w; next_handle := next_handle w;
       timers := timers w; issued := issued w ++ [r];
       inflight := inflight w ++ [length (issued w)];
       trace := trace w ++ [EvFetch r] |}.

(** How a request ends: a parsed body, or a rejection of [fetch] or of
    [response.json()]. *)
Inductive outcome := Ok (d : search_data) | Failed.

(** The rest of [performSearch], run when the answer to the request
    number [i] arrives. *)
Definition settle (i : nat) (w : world) : world :=
  {| sb := sb w; now := now w; next_handle := next_handle w;
     timers := timers w; issued := issued w;
     inflight := List.filter (fun j => negb (j =? i)%nat) (inflight w);
     trace := trace w |}.

Definition respond (i : nat) (o : outcome) (w : world) : world :=
  if existsb (Nat.eqb i) (inflight w)
  then
    let w1 := settle i w in
    match o with
    | Ok d =>
        let w2 := with_sb (set_searchResults (data_results d) (sb w1)) w1 in
        let w3 := call_onSearch (Some (map res_id (data_results d))) w2 in
        with_sb (renderSearchResults d (sb w3)) w3
    | Failed => emit EvConsoleError w1
    end
  else w.

(** *** Event listeners *)

(** The [input] listener of the search box; [v] is [e.target.value]. *)
Definition onInput (v : string) (w : world) : world :=
  let s1 := set_searchQuery v (set_input_value v (sb w)) in
  let s2 := if truthy v then set_clear_active true s1
            else hideSearchResults (set_clear_active false s1) in
  let w1 := clearTimeout (searchTimeout (this s2)) (with_sb s2 w) in
  if truthy v then setTimeout 300 w1 else call_onSearch None w1.

(** The [click] listener of the clear button. *)
Definition onClearClick (w : world) : world :=
  let s := hideSearchResults
             (set_clear_active false
                (set_searchQuery "" (set_input_value "" (sb w)))) in
  call_onSearch None (with_sb s w).

(** The [change] listener of the semantic toggle. *)
Definition onSemanticChange (checked : bool) (w : world) : world :=
  let w1 := with_sb (set_semantic checked (sb w)) w in
  if truthy (searchQuery (this (sb w1))) then performSearch w1 else w1.

(** One millisecond passes: the timers that are due run, oldest first. *)
Definition tick (w : world) : world :=
  let t := S (now w) in
  let due := List.filter (fun e => (snd e <=? t)%nat) (timers w) in
  let rest := List.filter (fun e => negb (snd e <=? t)%nat) (timers w) in
  fold_left (fun w _ => performSearch w) due
    {| sb := sb w; now := t; next_handle := next_handle w;
       timers := rest; issued := issued w; inflight := inflight w;
       trace := trace w |}.

Fixpoint advance (ms : nat) (w : world) : world :=
  match ms with
  | O => w
  | S k => advance k (tick w)
  end.

(** *** Theme selection *)

Definition deactivate (i : theme_item) : theme_item :=
  {| item_text := item_text i; item_active := false |}.

Definition activate (i : theme_item) : theme_item :=
  {| item_text := item_text i; item_active := true |}.

(** [selectTheme(themeName)].  With [themeName === null] the first
    [.theme-item] is marked; reading [classList] of a missing first
    item throws. *)
Definition selectTheme (themeName : option string) (w : world)
  : world * completion :=
  let s := hideSearchResults
             (set_clear_active false
                (set_searchQuery ""
                   (set_input_value ""
                      (set_selectedTheme themeName (sb w))))) in
  let items := map deactivate (theme_items (doc s)) in
  let marked :=
    match themeName with
    | None =>
        match items with
        | [] => None
        | first :: rest => Some (activate first :: rest)
        end
    | Some name =>
        Some (map (fun i => if includes (item_text i) name
                            then activate i else i) items)
    end in
  match marked with
  | None => (with_sb (set_theme_items items s) w, Thrown)
  | Some items' =>
      let s' := set_theme_items items' s in
      let w' := with_sb s' w in
      (if onThemeClick (this s')
       then emit (EvThemeClick themeName s') w' else w',
       Normal)
  end.

(** A freshly constructed instance in a quiet window. *)
Definition constructed : world :=
  {| sb := {| this := {| selectedTheme := None; searchQuery := "";
                        searchResults := []; searchTimeout := None;
                        onThemeClick := false; onSearch := false |};
              doc := {| searchInput_value := "";
                        searchClear_active := false;
                        semanticToggle_checked := false;
                        searchResults_shown := false;
                        searchResultsList := [];
                        searchResultsCount := None;
                        searchResultsMode := None;
                        theme_items := [] |} |};
     now := 0; next_handle := 1; timers := []; issued := [];
     inflight := []; trace := [] |}.

(** [setThemeClickCallback] and [setSearchCallback] *)
Definition setCallbacks (w : world) : world :=
  with_sb
    (with_fields
       {| selectedTheme := selectedTheme (this (sb w));
          searchQuery := searchQuery (this (sb w));
          searchResults := searchResults (this (sb w));
          searchTimeout := searchTimeout (this (sb w));
          onThemeClick := true; onSearch := true |} (sb w)) w.

(** *** Runs and the statements of the specification *)

Definition set_now (t : nat) (w : world) : world :=
  {| sb := sb w; now := t; next_handle := next_handle w;
     timers := timers w; issued := issued w; inflight := inflight w;
     trace := trace w |}.

(** A run of keystrokes: each sets the text of the search box to [v] and
    is followed by a pause of [gap] milliseconds. *)
Fixpoint type_keys (ks : list (string * nat)) (w : world) : world :=
  match ks with
  | [] => w
  | (v, gap) :: rest => type_keys rest (advance gap (onInput v w))
  end.

(** A burst: keystrokes [ks], then a last one leaving the text [last],
    then the debounce delay without a keystroke. *)
Definition burst (ks : list (string * nat)) (last : string) (w : world)
  : world :=
  advance 300 (onInput last (type_keys ks w)).

(** Every keystroke of the burst comes before the delay has elapsed. *)
Definition within_window (ks : list (string * nat)) : Prop :=
  forall v gap, In (v, gap) ks -> gap < 300.

(** The only timers pending are the one [this.searchTimeout] names. *)
Definition debounced (w : world) : Prop :=
  forall h d, In (h, d) (timers w) -> searchTimeout (this (sb w)) = Some h.

(** The request [performSearch] sends for the text [q]. *)
Definition request_for (q : string) (s : sidebar) : request :=
  {| req_q := q;
     req_theme := if truthy_opt (selectedTheme (this s))
                  then selectedTheme (this s) else None;
     req_semantic := semanticToggle_checked (doc s);
     req_limit := 25 |}.

(** Debouncing, in the words of the specification: a burst fires exactly
    one search, for the latest text. *)
Definition one_search_per_burst : Prop :=
  forall ks last w,
    debounced w -> within_window ks ->
    exists r, issued (burst ks last w) = issued w ++ [r] /\ req_q r = last.

(** Staleness rejection, in the words of the specification: when the
    answer to an earlier request arrives after the answer to a later one,
    the result set stays that of the later one. *)
Definition discards_stale : Prop :=
  forall w i j di dj,
    i < j -> In i (inflight w) -> In j (inflight w) ->
    searchResults (this (sb (respond i (Ok di) (respond j (Ok dj) w))))
    = data_results dj.

(** A page with the "All Themes" item and one theme, callbacks wired. *)
Definition wired : world :=
  let w := setCallbacks constructed in
  with_sb (set_theme_items
             [{| item_text := "All Themes 3"; item_active := true |};
              {| item_text := "ml 3"; item_active := false |}] (sb w)) w.

(** The two searches of a user who types "alp", waits, and types on to
    "alpha": both requests are in flight. *)
Definition two_in_flight : world :=
  advance 300 (onInput "alpha" (advance 300 (onInput "alp" wired))).

Definition hit (name : string) : result :=
  {| res_id := name; res_label := name; res_theme := "ml";
     res_score := None; res_snippet := None |}.

Definition answer (names : list string) : outcome :=
  Ok {| data_count := length names; data_semantic := false;
        data_results := map hit names |}.

(** What typing preserves. *)
Definition quiet_step (w w' : world) : Prop :=
  debounced w'
  /\ issued w' = issued w
  /\ selectedTheme (this (sb w')) = selectedTheme (this (sb w))
  /\ semanticToggle_checked (doc (sb w'))
     = semanticToggle_checked (doc (sb w)).

(** *** Reachable worlds *)

(** [renderThemes] as far as the page goes: the theme items are
    replaced. *)
Definition renderThemes (items : list theme_item) (w : world) : world :=
  with_sb (set_theme_items items (sb w)) w.

Inductive step : world -> world -> Prop :=
| step_input v w : step w (onInput v w)
| step_tick w : step w (tick w)
| step_respond i o w : step w (respond i o w)
| step_clear w : step w (onClearClick w)
| step_semantic b w : step w (onSemanticChange b w)
| step_select t w : step w (fst (selectTheme t w))
| step_callbacks w : step w (setCallbacks w)
| step_themes items w : step w (renderThemes items w).

Inductive reachable : world -> Prop :=
| reachable_constructed : reachable constructed
| reachable_step w w' : reachable w -> step w w' -> reachable w'.

(** No new timer, and the same handle in [this.searchTimeout]. *)
Definition keeps_timers (w w' : world) : Prop :=
  (forall e, In e (timers w') -> In e (timers w))
  /\ searchTimeout (this (sb w')) = searchTimeout (this (sb w)).

(** *** Further notions used in the properties of the panel *)

(** The world at the moment [t] when its last pending timer has just
    been taken off the queue to run. *)
Definition fired (t : nat) (w : world) : world :=
  {| sb := sb w; now := t; next_handle := next_handle w;
     timers := []; issued := issued w; inflight := inflight w;
     trace := trace w |}.

(** A request as [performSearch] builds it: for a text that is not
    empty, with the fixed limit. *)
Definition proper_request (r : request) : Prop :=
  req_q r <> "" /\ req_limit r = 25.

Definition all_proper (w : world) : Prop :=
  forall r, In r (issued w) -> proper_request r.

End Sidebar.

(** ** The detail viewer: class [InsightViewer] *)
Module InsightViewer.
Import JS.

(** The body of [/api/vault/insight/<id>]. *)
Record insight := Insight {
  ins_id : string;
  source_title : option string;
  ins_theme : string;
  ins_novelty_score : option Q;
  date_added : option string;
  source_url : option string;
  concepts : list string;
  tags : list string;
  content : option string;
  html_content : option string;
  filename : string
}.

(** The instance field and the elements of the viewer pane.  The
    texts derived from the novelty score and the date, and the link
    element built for the source, are left out. *)
Record viewer := Viewer {
  currentInsight : option insight;
  empty_text : string;
  empty_display : string;
  detail_display : string;
  title_text : string;
  theme_text : string;
  source_row_display : string;
  concepts_display : string;
  concepts_list : list string;
  tags_display : string;
  tags_list : list string;
  content_html : string;
  scrollTop : Z
}.

(** What [fetch] and [response.json()] produced: a rejected request, or
    a response with its [ok] flag and, when the body parses, the
    insight. *)
Inductive fetched :=
| NetworkError
| Response (ok : bool) (body : option insight).

(** [showError(message)] *)
Definition showError (message : string) (v : viewer) : viewer :=
  {| currentInsight := currentInsight v;
     empty_text := message;
     empty_display := "flex";
     detail_display := "none";
     title_text := title_text v; theme_text := theme_text v;
     source_row_display := source_row_display v;
     concepts_display := concepts_display v;
     concepts_list := concepts_list v;
     tags_display := tags_display v; tags_list := tags_list v;
     content_html := content_html v; scrollTop := scrollTop v |}.

(** [clear()] *)
Definition clear (v : viewer) : viewer :=
  {| currentInsight := None;
     empty_text := empty_text v;
     empty_display := "flex";
     detail_display := "none";
     title_text := title_text v; theme_text := theme_text v;
     source_row_display := source_row_display v;
     concepts_display := concepts_display v;
     concepts_list := concepts_list v;
     tags_display := tags_display v; tags_list := tags_list v;
     content_html := ""; scrollTop := scrollTop v |}.

Definition set_currentInsight (i : insight) (v : viewer) : viewer :=
  {| currentInsight := Some i;
     empty_text := empty_text v; empty_display := empty_display v;
     detail_display := detail_display v;
     title_text := title_text v; theme_text := theme_text v;
     source_row_display := source_row_display v;
     concepts_display := concepts_display v;
     concepts_list := concepts_list v;
     tags_display := tags_display v; tags_list := tags_list v;
     content_html := content_html v; scrollTop := scrollTop v |}.

Section Render.
(** [marked.parse] and the rewriting done by [processWikilinks] are
    text transformations no property below depends on. *)
Variable marked_parse : string -> string.
Variable processWikilinks : string -> string.

Definition shows_source (i : insight) : bool :=
  match source_url i with
  | Some u => truthy u && negb (String.eqb u "local-pdf")
              && negb (String.eqb u "unknown")
  | None => false
  end.

Definition nonempty {A} (l : list A) : bool :=
  match l with [] => false | _ => true end.

(** [render(insight)].  The title and theme are written first; then
    [insight.novelty_score.toFixed(2)] throws when the score is
    missing, leaving the rest of the pane as it was. *)
Definition render (i : insight) (v : viewer) : viewer * completion :=
  let title := or_else (source_title i) (ins_id i) in
  match ins_novelty_score i with
  | None =>
      ({| currentInsight := currentInsight v;
          empty_text := empty_text v; empty_display := empty_display v;
          detail_display := detail_display v;
          title_text := title; theme_text := ins_theme i;
          source_row_display := source_row_display v;
          concepts_display := concepts_display v;
          concepts_list := concepts_list v;
          tags_display := tags_display v; tags_list := tags_list v;
          content_html := content_html v;
          scrollTop := scrollTop v |}, Thrown)
  | Some _ =>
      ({| currentInsight := currentInsight v;
          empty_text := empty_text v;
          empty_display := "none";
          detail_display := "block";
          title_text := title; theme_text := ins_theme i;
          source_row_display :=
            if shows_source i then "flex" else "none";
          concepts_display :=
            if nonempty (concepts i) then "block" else "none";
          concepts_list :=
            if nonempty (concepts i) then concepts i
            else concepts_list v;
          tags_display := if nonempty (tags i) then "block" else "none";
          tags_list :=
            if nonempty (tags i) then tags i else tags_list v;
          content_html :=
            processWikilinks
              (if truthy_opt (html_content i)
               then or_else (html_content i) ""
               else marked_parse (or_else (content i) ""));
          scrollTop := 0 |}, Normal)
  end.

(** [loadInsight(insightId)], given what the request produced. *)
Definition loadInsight (r : fetched) (v : viewer) : viewer * completion :=
  match r with
  | Response true (Some i) =>
      match render i (set_currentInsight i v) with
      | (v', Normal) => (v', Normal)
      | (v', Thrown) => (showError "Failed to load insight" v', Normal)
      end
  | _ => (showError "Failed to load insight" v, Normal)
  end.

(** The request failed: it was rejected, answered with a status that
    is not [ok], or its body was not JSON. *)
Definition fetch_failed (r : fetched) : bool :=
  match r with
  | Response true (Some _) => false
  | _ => true
  end.
End Render.

(** *** Sequences of viewer operations *)

(** What can be asked of the viewer: [clear()], or [loadInsight] with
    what the request produces. *)
Inductive action := Clear | Load (r : fetched).

Definition act (marked_parse processWikilinks : string -> string)
  (a : action) (v : viewer) : viewer :=
  match a with
  | Clear => clear v
  | Load r => fst (loadInsight marked_parse processWikilinks r v)
  end.

Definition run (marked_parse processWikilinks : string -> string)
  (actions : list action) (v : viewer) : viewer :=
  fold_left (fun v a => act marked_parse processWikilinks a v) actions v.

(** *** The star row: [getNoveltyStars] *)

(** [Math.round]: the nearest integer, halves going up. *)
Definition round (q : Q) : Z := Qfloor (q + (1 # 2)).

Inductive star := Filled | Hollow.

(** [symbol.repeat(count)]; a negative count throws a [RangeError]. *)
Definition repeat_star (symbol : star) (count : Z) : option (list star) :=
  if (count <? 0)%Z then None
  else Some (List.repeat symbol (Z.to_nat count)).

Definition getNoveltyStars (score : Q) : option (list star) :=
  let stars := round (score * 5) in
  match repeat_star Filled stars with
  | None => None
  | Some filled =>
      match repeat_star Hollow (5 - stars) with
      | None => None
      | Some hollow => Some (filled ++ hollow)
      end
  end.

(** *** Cross-reference links: the replacement in [processWikilinks]

    The pattern is two opening brackets, a target of one or more
    characters other than a closing bracket and a bar, optionally a bar
    and a display text of one or more characters other than a closing
    bracket, and two closing brackets.  Both character runs are greedy
    and end at a character they exclude, so at a given start there is
    at most one way to match. *)

Definition is_open (c : Ascii.ascii) : bool := Ascii.eqb c "["%char.
Definition is_close (c : Ascii.ascii) : bool := Ascii.eqb c "]"%char.
Definition is_bar (c : Ascii.ascii) : bool := Ascii.eqb c "|"%char.
Definition in_target (c : Ascii.ascii) : bool :=
  negb (is_close c || is_bar c).
Definition in_display (c : Ascii.ascii) : bool := negb (is_close c).

(** The longest run of characters satisfying [p] at the head of [s],
    and what follows it. *)
Fixpoint span (p : Ascii.ascii -> bool) (s : string) : string * string :=
  match s with
  | EmptyString => (EmptyString, EmptyString)
  | String c rest =>
      if p c
      then (String c (fst (span p rest)), snd (span p rest))
      else (EmptyString, s)
  end.

Definition starts_with_two (p : Ascii.ascii -> bool) (s : string) : bool :=
  match s with
  | String a (String b _) => p a && p b
  | _ => false
  end.

Definition drop2 (s : string) : string :=
  match s with
  | String _ (String _ rest) => rest
  | _ => EmptyString
  end.

(** A match of the pattern at the head of [s]: the target, the display
    text if there is one, and the number of characters matched. *)
Definition match_link (s : string)
  : option (string * option string * nat) :=
  if starts_with_two is_open s then
    let (target, s2) := span in_target (drop2 s) in
    match target with
    | EmptyString => None
    | _ =>
        if starts_with_two is_close s2
        then Some (target, None, 4 + String.length target)
        else
          match s2 with
          | String c s3 =>
              if is_bar c then
                let (display, s4) := span in_display s3 in
                match display with
                | EmptyString => None
                | _ =>
                    if starts_with_two is_close s4
                    then Some (target, Some display,
                               5 + String.length target
                               + String.length display)
                    else None
                end
              else None
          | EmptyString => None
          end
    end
  else None.

Definition quote : string := String "034"%char EmptyString.

(** The replacement text for one link. *)
Definition anchor (targetClean displayText : string) : string :=
  "<a href=" ++ quote ++ "javascript:app.loadInsight('" ++ targetClean
  ++ "')" ++ quote ++ " class=" ++ quote ++ "wikilink" ++ quote ++ ">"
  ++ displayText ++ "</a>".

Section Wikilinks.
(** [String.prototype.trim]. *)
Variable trim : string -> string.

Definition replacement (target : string) (display : option string)
  : string :=
  anchor (trim target)
         (trim (match display with Some d => d | None => target end)).

(** [contentText.replace(pattern, ...)]: the text is scanned from the
    left; where the pattern matches, the replacement is written and
    the scan goes on behind the match ([skip] counts the matched
    characters still to pass over); elsewhere the character is
    copied. *)
Fixpoint scan (skip : nat) (s : string) : string :=
  match s with
  | EmptyString => EmptyString
  | String c rest =>
      match skip with
      | S k => scan k rest
      | O =>
          match match_link s with
          | Some (target, display, matched) =>
              replacement target display ++ scan (matched - 1) rest
          | None => String c (scan 0 rest)
          end
      end
  end.

Definition replace_wikilinks (contentText : string) : string :=
  scan 0 contentText.
End Wikilinks.

(** Every character of [s] satisfies [p]. *)
Fixpoint every (p : Ascii.ascii -> bool) (s : string) : bool :=
  match s with
  | EmptyString => true
  | String c rest => p c && every p rest
  end.

(** The message [loadInsight] shows when it fails. *)
Definition failure_message : string := "Failed to load insight".

(** A link as an author writes it: [[target]] or [[target|display]]. *)
Definition written_link (target : string) (display : option string)
  : string :=
  "[[" ++ target
  ++ match display with Some d => "|" ++ d | None => "" end
  ++ "]]".

Definition not_open (c : Ascii.ascii) : bool := negb (is_open c).

End InsightViewer.

(** ** The coordinator: class [KnowledgeEngineApp] *)
Module App.
Import JS.

(** A method call on the graph engine. *)
Inductive graph_call :=
| CallFilterByTheme (theme : string)
| CallClearFilter
| CallRenderAll
| CallLoadGraphByTheme (theme : string)
| CallHighlightSearchResults (ids : list string).

(** The callback given to [setThemeClickCallback]. *)
Definition themeClickCallback (theme : option string) : list graph_call :=
  match theme with
  | Some t =>
      if truthy t then [CallFilterByTheme t; CallLoadGraphByTheme t]
      else [CallClearFilter; CallRenderAll]
  | None => [CallClearFilter; CallRenderAll]
  end.

(** The callback given to [setSearchCallback]. *)
Definition searchCallback (resultNodeIds : option (list string))
  : list graph_call :=
  match resultNodeIds with
  | Some (i :: ids) => [CallHighlightSearchResults (i :: ids)]
  | _ => [CallHighlightSearchResults []]
  end.

(** The calls on the graph engine a sidebar event leads to. *)
Definition dispatch (e : Sidebar.event) : list graph_call :=
  match e with
  | Sidebar.EvThemeClick t _ => themeClickCallback t
  | Sidebar.EvSearch ids => searchCallback ids
  | _ => []
  end.

Definition is_highlight_call (c : graph_call) : bool :=
  match c with CallHighlightSearchResults _ => true | _ => false end.

(** What a call does to the graph engine at once.  [graphData] is the
    full snapshot the coordinator keeps; [loadGraphByTheme] only sends a
    request, whose answer is rendered later. *)
Definition run_call (phyllotaxis : nat -> Q * Q)
  (graphData : KnowledgeGraph.snapshot) (c : graph_call)
  (g : KnowledgeGraph.state) : KnowledgeGraph.state :=
  match c with
  | CallFilterByTheme t => KnowledgeGraph.filterByTheme (Some t) g
  | CallClearFilter => KnowledgeGraph.clearFilter g
  | CallRenderAll => fst (KnowledgeGraph.render phyllotaxis graphData g)
  | CallLoadGraphByTheme _ => g
  | CallHighlightSearchResults ids =>
      KnowledgeGraph.highlightSearchResults ids g
  end.

Definition run_calls (phyllotaxis : nat -> Q * Q)
  (graphData : KnowledgeGraph.snapshot) (cs : list graph_call)
  (g : KnowledgeGraph.state) : KnowledgeGraph.state :=
  fold_left (fun g c => run_call phyllotaxis graphData c g) cs g.

(** The three components the coordinator owns. *)
Record app := AppState {
  app_graph : KnowledgeGraph.state;
  app_sidebar : Sidebar.world;
  app_viewer : InsightViewer.viewer;
  graph_container_scrollTop : Z
}.

Section Load.
Variable marked_parse : string -> string.
Variable processWikilinks : string -> string.

(** [loadInsight(insightId)] of the coordinator. *)
Definition loadInsight (r : InsightViewer.fetched) (a : app)
  : app * completion :=
  let '(v, c) :=
    InsightViewer.loadInsight marked_parse processWikilinks r
                              (app_viewer a) in
  ({| app_graph := app_graph a; app_sidebar := app_sidebar a;
      app_viewer := v; graph_container_scrollTop := 0 |}, c).
End Load.

End App.

(** ** Sample data *)
Module Sample.
Import KnowledgeGraph.

(** A node as the backend sends it: no count, no position. *)
Definition plain (name theme : string) : node :=
  {| node_id := name; node_label := name; node_theme := theme;
     novelty_score := Some (1 # 2)%Q; node_color := None;
     connections := None; x := None; y := None;
     fx := None; fy := None |}.

Definition edge (s t : string) : link :=
  {| source := s; target := t; display := t; type := "wikilink" |}.

(** The example of the specification: nodes A, B, C, D and the edges
    A-B and A-C. *)
Definition abcd : snapshot :=
  {| snap_nodes := [plain "A" "ml"; plain "B" "ml"; plain "C" "vc";
                    plain "D" "vc"];
     snap_edges := [edge "A" "B"; edge "A" "C"];
     snap_orphans := ["D"] |}.

(** A single note that links to itself. *)
Definition self_linked : snapshot :=
  {| snap_nodes := [plain "A" "ml"];
     snap_edges := [edge "A" "A"];
     snap_orphans := [] |}.

(** A single note without links. *)
Definition lonely : snapshot :=
  {| snap_nodes := [plain "A" "ml"]; snap_edges := [];
     snap_orphans := ["A"] |}.

(** Two linked notes. *)
Definition pair : snapshot :=
  {| snap_nodes := [plain "A" "ml"; plain "B" "vc"];
     snap_edges := [edge "A" "B"];
     snap_orphans := [] |}.

(** A note with a link to a note that is not in the snapshot. *)
Definition dangling : snapshot :=
  {| snap_nodes := [plain "A" "ml"];
     snap_edges := [edge "A" "Z"];
     snap_orphans := [] |}.

(** A layout putting every node at the origin. *)
Definition origin (i : nat) : Q * Q := (0, 0)%Q.

Definition fresh : state := constructed 800 600.

Definition after (g : snapshot) : state := fst (render origin g fresh).
(** An empty viewer pane and an application around the samples. *)
Definition pane : InsightViewer.viewer :=
  {| InsightViewer.currentInsight := None;
     InsightViewer.empty_text := "Select an insight";
     InsightViewer.empty_display := "flex";
     InsightViewer.detail_display := "none";
     InsightViewer.title_text := ""; InsightViewer.theme_text := "";
     InsightViewer.source_row_display := "none";
     InsightViewer.concepts_display := "none";
     InsightViewer.concepts_list := [];
     InsightViewer.tags_display := "none";
     InsightViewer.tags_list := [];
     InsightViewer.content_html := ""; InsightViewer.scrollTop := 0 |}.

Definition application : App.app :=
  {| App.app_graph := after pair; App.app_sidebar := Sidebar.wired;
     App.app_viewer := pane; App.graph_container_scrollTop := 40 |}.

Definition verbatim (s : string) : string := s.

End Sample.

(** * Properties *)

(** ** Connection counts *)
Section ConnectionCount.
Import JS KnowledgeGraph.

Lemma bump_lookup (k k' : string) (m : gmap string num) :
  bump k' m !! k = if decide (k' = k) then Some (incr (m !! k)) else m !! k.
Proof.
  unfold bump. destruct (decide (k' = k)) as [->|Hne].
  - apply lookup_insert_eq.
  - by apply lookup_insert_ne.
Qed.

Lemma count_init_lookup_acc (ns : list node) (m : gmap string num)
  (k : string) :
  (exists n, In n ns /\ node_id n = k) \/ m !! k = Some (Num 0) ->
  foldl (fun m n => <[node_id n := Num 0]> m) m ns !! k = Some (Num 0).
Proof.
  revert m. induction ns as [|a ns IH]; intros m H; simpl.
  - destruct H as [[n [[] _]]|H]. exact H.
  - apply IH. destruct H as [[n [[->|Hin] Hk]]|H].
    + right. rewrite Hk. apply lookup_insert_eq.
    + left. eauto.
    + destruct (decide (node_id a = k)) as [->|Hne].
      * right. apply lookup_insert_eq.
      * right. by rewrite lookup_insert_ne.
Qed.

Lemma count_init_lookup (ns : list node) (n : node) :
  In n ns -> count_init ns !! node_id n = Some (Num 0).
Proof. intros H. apply count_init_lookup_acc. left. eauto. Qed.

Lemma count_links_lookup (ls : list link) (m : gmap string num)
  (k : string) (c : nat) :
  m !! k = Some (Num c) ->
  count_links ls m !! k = Some (Num (c + out_count k ls + in_count k ls)).
Proof.
  unfold count_links, out_count, in_count.
  revert m c. induction ls as [|l ls IH]; intros m c Hm; simpl.
  - rewrite Hm. do 2 f_equal. lia.
  - set (m' := bump (target l) (bump (source l) m)).
    assert (Hm' : m' !! k =
              Some (Num (c + (if String.eqb (source l) k then 1 else 0)
                           + (if String.eqb (target l) k then 1 else 0)))).
    { unfold m'. rewrite !bump_lookup.
      destruct (String.eqb_spec (source l) k) as [Hs|Hs];
      destruct (String.eqb_spec (target l) k) as [Ht|Ht];
      repeat case_decide; try congruence;
      rewrite ?bump_lookup; repeat case_decide; try congruence;
      rewrite Hm; simpl; do 2 f_equal; lia. }
    rewrite (IH _ _ Hm').
    destruct (String.eqb (source l) k), (String.eqb (target l) k);
      simpl; do 2 f_equal; lia.
Qed.

Lemma assign_connections_spec (ns : list node) (ls : list link) (n : node) :
  In n (assign_connections ns ls) ->
  connections n
  = Some (out_count (node_id n) ls + in_count (node_id n) ls).
Proof.
  unfold assign_connections. intros H. apply in_map_iff in H.
  destruct H as [n0 [<- Hin]]. simpl.
  unfold connectionCount.
  rewrite (count_links_lookup ls _ _ 0 (count_init_lookup ns n0 Hin)).
  reflexivity.
Qed.

Lemma touching_plus_loops (k : string) (ls : list link) :
  out_count k ls + in_count k ls
  = length (edges_touching k ls) + length (self_loops k ls).
Proof.
  unfold out_count, in_count, edges_touching, self_loops.
  induction ls as [|l ls IH]; simpl; [reflexivity|].
  destruct (String.eqb (source l) k), (String.eqb (target l) k);
    simpl; lia.
Qed.

Lemma copy_edges_id (ls : list link) : map copy_edge ls = ls.
Proof.
  induction ls as [|[s t d ty] ls IH]; simpl; [reflexivity|].
  now rewrite IH.
Qed.
End ConnectionCount.

Section Ingest.
Import JS KnowledgeGraph.
Variable phyllotaxis : nat -> Q * Q.

Lemma render_nodes (g : snapshot) (st : state) :
  nodes (fst (render phyllotaxis g st))
  = initializeNodes phyllotaxis
      (assign_connections (snap_nodes g) (snap_edges g)).
Proof.
  unfold render. rewrite copy_edges_id.
  destruct (resolve_all _ _); reflexivity.
Qed.

Lemma initialize_node_id (i : nat) (n : node) :
  node_id (initialize_node phyllotaxis i n) = node_id n.
Proof.
  unfold initialize_node.
  destruct (fx n), (x n), (fy n), (y n); reflexivity.
Qed.

Lemma initialize_node_connections (i : nat) (n : node) :
  connections (initialize_node phyllotaxis i n) = connections n.
Proof.
  unfold initialize_node.
  destruct (fx n), (x n), (fy n), (y n); reflexivity.
Qed.

Lemma in_initializeNodes (ns : list node) (n : node) :
  In n (initializeNodes phyllotaxis ns) ->
  exists i n0, ns !! i = Some n0 /\ n = initialize_node phyllotaxis i n0.
Proof.
  intros H. apply list_elem_of_In in H.
  apply elem_of_lookup_imap_1 in H. destruct H as (i & n0 & -> & Hl).
  eauto.
Qed.

Lemma render_connections (g : snapshot) (st : state) (n : node) :
  In n (nodes (fst (render phyllotaxis g st))) ->
  connections n
  = Some (out_count (node_id n) (snap_edges g)
          + in_count (node_id n) (snap_edges g)).
Proof.
  rewrite render_nodes. intros H.
  apply in_initializeNodes in H. destruct H as (i & n0 & Hl & ->).
  rewrite initialize_node_connections, initialize_node_id.
  apply (assign_connections_spec (snap_nodes g) (snap_edges g) n0).
  apply (proj1 (list_elem_of_In _ _)).
  eapply list_elem_of_lookup_2. exact Hl.
Qed.
End Ingest.

Section ConnectionCountClaim.
Import JS KnowledgeGraph.

(** C4, as amended.  After an ingest every node of the working set has
    [connections] equal to the number of edges with its id as source
    plus the number of edges with its id as target; this is the number
    of edges touching the node plus the number of its self-loops, so it
    equals the number of touching edges when the node has no self-loop.
    A node is styled as an orphan exactly when that count is zero,
    which is exactly when no edge touches it. *)
Theorem render_counts_edge_ends (phyllotaxis : nat -> Q * Q)
  (g : snapshot) (st : state) (n : node) :
  In n (nodes (fst (render phyllotaxis g st))) ->
  let k := node_id n in
  let es := snap_edges g in
  connections n = Some (out_count k es + in_count k es)
  /\ connections n
     = Some (length (edges_touching k es) + length (self_loops k es))
  /\ (self_loops k es = [] ->
      connections n = Some (length (edges_touching k es)))
  /\ (is_orphan n = true <-> connections n = Some 0)
  /\ (is_orphan n = true <-> edges_touching k es = []).
Proof.
  intros Hin k es.
  pose proof (render_connections phyllotaxis g st n Hin) as Hc.
  fold k es in Hc.
  pose proof (touching_plus_loops k es) as Hsum.
  assert (Horph : is_orphan n = true <-> connections n = Some 0).
  { unfold is_orphan. destruct (connections n) as [[|c]|];
      split; intros; congruence. }
  repeat split.
  - exact Hc.
  - rewrite Hc, Hsum. reflexivity.
  - intros Hnil. rewrite Hc, Hsum, Hnil. simpl. f_equal. lia.
  - apply Horph.
  - apply Horph.
  - intros Ho. apply Horph in Ho. rewrite Hc, Hsum in Ho.
    injection Ho as Ho. destruct (edges_touching k es); [reflexivity|].
    simpl in Ho. lia.
  - intros Hnil. apply Horph. rewrite Hc, Hsum, Hnil.
    assert (Hl : length (self_loops k es) = 0); [|rewrite Hl; reflexivity].
    assert (Hsub : forall e, In e (self_loops k es) ->
                             In e (edges_touching k es)).
    { intros e. unfold self_loops, edges_touching.
      rewrite !List.filter_In. intros [He Hb]. split; [exact He|].
      apply andb_true_iff in Hb. destruct Hb as [-> _]. reflexivity. }
    destruct (self_loops k es) as [|e l]; [reflexivity|].
    specialize (Hsub e (or_introl eq_refl)). rewrite Hnil in Hsub.
    destruct Hsub.
Qed.

(** The example of the specification: A has two connections. *)
Lemma render_counts_edge_ends_witness :
  let n := set_position (Some 0%Q) (Some 0%Q)
             (set_connections 2 (Sample.plain "A" "ml")) in
  In n (nodes (Sample.after Sample.abcd))
  /\ connections n = Some 2
  /\ is_orphan n = false.
Proof.
  intros n.
  assert (Hin : In n (nodes (fst (render Sample.origin Sample.abcd
                                         Sample.fresh)))).
  { vm_compute. left. reflexivity. }
  split; [exact Hin|].
  destruct (render_counts_edge_ends Sample.origin Sample.abcd
              Sample.fresh n Hin) as (Hc & _).
  split; [exact Hc|reflexivity].
Defined.

(** C4 as stated fails on a note that links to itself: the one edge
    A-A is counted at both of its ends. *)
Lemma self_loop_counted_twice :
  ~ (forall (phyllotaxis : nat -> Q * Q) (g : snapshot) (st : state)
            (n : node),
        In n (nodes (fst (render phyllotaxis g st))) ->
        connections n
        = Some (length (edges_touching (node_id n) (snap_edges g)))).
Proof.
  intros H.
  specialize (H Sample.origin Sample.self_linked Sample.fresh
                (set_position (Some 0%Q) (Some 0%Q)
                   (set_connections 2 (Sample.plain "A" "ml")))).
  assert (Hin : In (set_position (Some 0%Q) (Some 0%Q)
                      (set_connections 2 (Sample.plain "A" "ml")))
                   (nodes (fst (render Sample.origin Sample.self_linked
                                       Sample.fresh)))).
  { vm_compute. left. reflexivity. }
  specialize (H Hin). vm_compute in H. discriminate H.
Qed.
End ConnectionCountClaim.

(** ** Radius encoding *)
Section Radius.
Import KnowledgeGraph.
Local Open Scope Q_scope.

Lemma radius_expr_mono (z1 z2 : Z) :
  (z1 <= z2)%Z ->
  baseRadius + inject_Z z1 * (maxRadius - baseRadius) / 15
  <= baseRadius + inject_Z z2 * (maxRadius - baseRadius) / 15.
Proof.
  intros H. unfold baseRadius, maxRadius.
  unfold Qle, Qplus, Qmult, Qdiv, Qminus, Qinv, Qopp, inject_Z.
  simpl. lia.
Qed.

Lemma radius_expr_bounds (z : Z) :
  (0 <= z <= 15)%Z ->
  baseRadius <= baseRadius + inject_Z z * (maxRadius - baseRadius) / 15
  /\ baseRadius + inject_Z z * (maxRadius - baseRadius) / 15 <= maxRadius.
Proof.
  intros H. unfold baseRadius, maxRadius.
  unfold Qle, Qplus, Qmult, Qdiv, Qminus, Qinv, Qopp, inject_Z.
  simpl. lia.
Qed.

Lemma legacy_score_bounds (n : node) :
  1 # 2 <= legacy_score n /\ legacy_score n <= 1.
Proof.
  unfold legacy_score. split.
  - apply Q.le_max_l.
  - apply Q.max_lub; [discriminate|]. apply Q.le_min_l.
Qed.

Lemma legacy_radius_bounds (n : node) :
  5 <= getNodeRadius_legacy n /\ getNodeRadius_legacy n <= 15.
Proof.
  unfold getNodeRadius_legacy.
  destruct (legacy_score_bounds n) as [H1 H2]. revert H1 H2.
  generalize (legacy_score n). intros [a b].
  unfold Qle, Qplus, Qmult, Qdiv, Qminus, Qinv, Qopp, inject_Z.
  simpl. lia.
Qed.

(** C5.  The radius grows (weakly) with the connection count, lies
    between [baseRadius] = 6 and [maxRadius] = 25, and depends on the
    node through its connection count alone: the novelty score plays no
    part in it.  The sizing by novelty score is a function of its own,
    [getNodeRadius_legacy], which in turn ignores the connection
    count. *)
Theorem getNodeRadius_monotone_bounded (n m : node) :
  ((connection_count n <= connection_count m)%nat ->
   getNodeRadius n <= getNodeRadius m)
  /\ (baseRadius <= getNodeRadius n /\ getNodeRadius n <= maxRadius)
  /\ (connection_count n = connection_count m ->
      getNodeRadius n = getNodeRadius m)
  /\ (novelty_score n = novelty_score m ->
      getNodeRadius_legacy n = getNodeRadius_legacy m).
Proof.
  repeat split.
  - intros H. unfold getNodeRadius. apply radius_expr_mono. lia.
  - unfold getNodeRadius. apply radius_expr_bounds. lia.
  - unfold getNodeRadius. apply radius_expr_bounds. lia.
  - intros H. unfold getNodeRadius. rewrite H. reflexivity.
  - intros H. unfold getNodeRadius_legacy, legacy_score. rewrite H.
    reflexivity.
Qed.

(** A node with one connection against a node with twenty, with
    different novelty scores. *)
Lemma getNodeRadius_monotone_bounded_witness :
  let n := set_connections 1 (Sample.plain "A" "ml") in
  let m := set_connections 20 (Sample.plain "B" "vc") in
  (connection_count n <= connection_count m)%nat
  /\ getNodeRadius n <= getNodeRadius m
  /\ baseRadius <= getNodeRadius n <= maxRadius.
Proof.
  intros n m.
  destruct (getNodeRadius_monotone_bounded n m) as (Hmono & Hb & _).
  split; [vm_compute; lia|].
  split; [apply Hmono; vm_compute; lia|exact Hb].
Defined.
End Radius.

(** ** Positions across ingests *)
Section Positions.
Import JS KnowledgeGraph.

Lemma Qplus_one_neq (q : Q) : (q + 1)%Q <> q.
Proof.
  destruct q as [a b]. unfold Qplus. simpl.
  intros H. injection H as H1 H2. lia.
Qed.

Lemma assign_connections_lookup (ns : list node) (ls : list link)
  (i : nat) (n : node) :
  ns !! i = Some n ->
  exists c, assign_connections ns ls !! i = Some (set_connections c n).
Proof.
  intros H. unfold assign_connections.
  eexists. rewrite list_lookup_fmap, H. reflexivity.
Qed.

(** C2, as amended.  An ingest does not look at the working set it
    replaces: the nodes it leaves are the same whatever the state
    before.  The node at index [i] of the snapshot becomes the node at
    index [i] of the working set, with the same id; it keeps the
    coordinates the snapshot gives it, and when the snapshot gives none
    (as the backend sends it) it is put at the initial position the
    engine has for index [i]. *)
Theorem render_positions_from_snapshot (phyllotaxis : nat -> Q * Q)
  (g : snapshot) (st st' : state) (i : nat) (n : node) :
  snap_nodes g !! i = Some n ->
  nodes (fst (render phyllotaxis g st))
  = nodes (fst (render phyllotaxis g st'))
  /\ exists n',
      nodes (fst (render phyllotaxis g st)) !! i = Some n'
      /\ node_id n' = node_id n
      /\ (x n = None -> y n = None -> fx n = None -> fy n = None ->
          position n'
          = (Some (fst (phyllotaxis i)), Some (snd (phyllotaxis i))))
      /\ (forall a b,
             x n = Some a -> y n = Some b -> fx n = None -> fy n = None ->
             position n' = (Some a, Some b)).
Proof.
  intros Hl. split; [rewrite !render_nodes; reflexivity|].
  rewrite render_nodes.
  destruct (assign_connections_lookup _ (snap_edges g) _ _ Hl) as [c Hc].
  exists (initialize_node phyllotaxis i (set_connections c n)).
  split.
  { unfold initializeNodes. rewrite list_lookup_imap, Hc. reflexivity. }
  split; [rewrite initialize_node_id; reflexivity|].
  split.
  - intros Hx Hy Hfx Hfy. unfold initialize_node, position.
    destruct n; simpl in *; subst; reflexivity.
  - intros a b Hx Hy Hfx Hfy. unfold initialize_node, position.
    destruct n; simpl in *; subst; reflexivity.
Qed.

(** Node A of the four-node example, ingested into two instances of
    different size. *)
Lemma render_positions_from_snapshot_witness :
  snap_nodes Sample.abcd !! 0%nat = Some (Sample.plain "A" "ml")
  /\ nodes (fst (render Sample.origin Sample.abcd Sample.fresh))
     = nodes (fst (render Sample.origin Sample.abcd (constructed 10 10))).
Proof.
  split; [reflexivity|].
  apply (render_positions_from_snapshot Sample.origin Sample.abcd
           Sample.fresh (constructed 10 10) 0 (Sample.plain "A" "ml")).
  reflexivity.
Defined.

(** C2 as stated fails for every initial layout and every physics:
    ingest a single note, drag it one unit to the right, let one tick
    pass, release it, and ingest the same snapshot again; the note is
    back at its initial position. *)
Lemma reingest_resets_dragged_node :
  ~ exists phyllotaxis physics, keeps_positions phyllotaxis physics.
Proof.
  intros (ph & phys & H).
  set (p := ph 0%nat).
  set (moved := set_position (Some (fst p + 1)%Q) (Some (snd p))
                  (set_connections 0 (Sample.plain "A" "ml"))).
  set (st1 := fst (render ph Sample.lonely Sample.fresh)).
  set (st2 := dragStart false 0 st1).
  set (st3 := drag 0 (fst p + 1)%Q (snd p) st2).
  set (st4 := tick phys st3).
  set (st5 := dragEnd false 0 st4).
  assert (R : reachable ph phys st5).
  { unfold st5, st4, st3, st2, st1.
    repeat (eapply reachable_step; [|constructor]).
    apply reachable_constructed. }
  assert (N : nodes st5 = [set_pin None None moved]) by reflexivity.
  assert (S : superset Sample.lonely Sample.lonely)
    by (intros n Hn; eauto).
  specialize (H st5 Sample.lonely Sample.lonely R eq_refl S
                (set_pin None None moved)
                (set_position (Some (fst p)) (Some (snd p))
                   (set_connections 0 (Sample.plain "A" "ml")))).
  rewrite N in H. specialize (H (or_introl eq_refl)).
  rewrite render_nodes in H.
  specialize (H (or_introl eq_refl) eq_refl).
  unfold position in H. simpl in H.
  injection H as H. symmetry in H. exact (Qplus_one_neq _ H).
Qed.
End Positions.

(** ** Search highlight *)
Section Highlight.
Import JS KnowledgeGraph.

Lemma reset_circle_opacity (c : circle) :
  attr_opacity (reset_circle c) = (7 # 10)%Q
  /\ attr_opacity (baseline_circle (c_datum (reset_circle c)))
     <> (7 # 10)%Q.
Proof.
  split; [reflexivity|]. simpl.
  destruct (is_orphan (c_datum c)); discriminate.
Qed.

(** C3 at work.  A rendered orphan has the grey stroke and opacity 0.6,
    a rendered connected node the white stroke and opacity 1.  After
    [highlightSearchResults([])] the orphan has the white stroke and
    both have opacity 0.7; and a node that was highlighted before keeps
    the brightness filter. *)
Lemma highlight_empty_differs_from_baseline :
  look (Sample.after Sample.lonely)
  = Some [[("#cbd5e1", 2, 6 # 10, None)]]%Q
  /\ look (highlightSearchResults [] (Sample.after Sample.lonely))
     = Some [[("#ffffff", 2, 7 # 10, None)]]%Q
  /\ look (Sample.after Sample.pair)
     = Some [[("#ffffff", 2, 1, None)]; [("#ffffff", 2, 1, None)]]%Q
  /\ look (highlightSearchResults []
             (highlightSearchResults ["A"] (Sample.after Sample.pair)))
     = Some [[("#ffffff", 2, 7 # 10, Some "brightness(1.2)")];
             [("#ffffff", 2, 7 # 10, None)]]%Q.
Proof. repeat apply conj; vm_compute; reflexivity. Qed.

(** In general: whatever was rendered, after
    [highlightSearchResults([])] every circle has opacity 0.7, which is
    the baseline opacity of no node. *)
Lemma highlight_empty_opacity (st : state) (gs : list gnode)
  (g : gnode) (c : circle) :
  nodeElements (highlightSearchResults [] st) = Some gs ->
  In g gs -> In c (circles g) ->
  attr_opacity c = (7 # 10)%Q
  /\ attr_opacity (baseline_circle (c_datum c)) <> (7 # 10)%Q.
Proof.
  unfold highlightSearchResults, highlight_groups. simpl.
  destruct (nodeElements st) as [gs0|]; simpl; [|discriminate].
  intros [= <-] Hg Hc.
  apply in_map_iff in Hg. destruct Hg as (g0 & <- & _).
  simpl in Hc. apply in_map_iff in Hc. destruct Hc as (c0 & <- & _).
  apply reset_circle_opacity.
Qed.
End Highlight.

(** ** Theme filter *)
Section ThemeFilter.
Import JS KnowledgeGraph.

Lemma truthy_nonempty (t : string) : t <> "" -> truthy t = true.
Proof.
  intros H. unfold truthy.
  destruct (String.eqb_spec t ""); simpl; congruence.
Qed.

Lemma node_dimmed_iff (t : string) (d : node) :
  t <> "" -> (node_dimmed (Some t) d = true <-> node_theme d <> t).
Proof.
  intros H. unfold node_dimmed. rewrite (truthy_nonempty t H). simpl.
  destruct (String.eqb_spec (node_theme d) t); simpl; split;
    congruence.
Qed.

Lemma link_dimmed_iff (t : string) (l : rlink) :
  t <> "" ->
  (link_dimmed (Some t) l = true
   <-> node_theme (rsource l) <> t /\ node_theme (rtarget l) <> t).
Proof.
  intros H. unfold link_dimmed. rewrite (truthy_nonempty t H).
  destruct (String.eqb_spec (node_theme (rsource l)) t);
    destruct (String.eqb_spec (node_theme (rtarget l)) t); simpl;
    (split; [intros Hd; try discriminate Hd; split; assumption
            |intros [H1 H2]; try reflexivity; congruence]).
Qed.

Lemma map_dim_gnode_undimmed (gs : list gnode) :
  (forall g, In g gs -> g_dimmed g = false) ->
  map (dim_gnode None) gs = gs.
Proof.
  induction gs as [|g gs IH]; intros H; simpl; [reflexivity|].
  rewrite IH by (intros; apply H; now right).
  pose proof (H g (or_introl eq_refl)) as Hg.
  destruct g; simpl in *; subst; reflexivity.
Qed.

Lemma map_dim_text_undimmed (ts : list text) :
  (forall t, In t ts -> t_dimmed t = false) ->
  map (dim_text None) ts = ts.
Proof.
  induction ts as [|t ts IH]; intros H; simpl; [reflexivity|].
  rewrite IH by (intros; apply H; now right).
  pose proof (H t (or_introl eq_refl)) as Ht.
  destruct t; simpl in *; subst; reflexivity.
Qed.

Lemma map_dim_line_undimmed (ls : list line) :
  (forall l, In l ls -> l_dimmed l = false) ->
  map (dim_line None) ls = ls.
Proof.
  induction ls as [|l ls IH]; intros H; simpl; [reflexivity|].
  rewrite IH by (intros; apply H; now right).
  pose proof (H l (or_introl eq_refl)) as Hl.
  destruct l; simpl in *; subst; reflexivity.
Qed.

Lemma dim_gnode_twice (a b : option string) (gs : list gnode) :
  map (dim_gnode a) (map (dim_gnode b) gs) = map (dim_gnode a) gs.
Proof. rewrite map_map. reflexivity. Qed.

Lemma dim_text_twice (a b : option string) (ts : list text) :
  map (dim_text a) (map (dim_text b) ts) = map (dim_text a) ts.
Proof. rewrite map_map. reflexivity. Qed.

Lemma dim_line_twice (a b : option string) (ls : list line) :
  map (dim_line a) (map (dim_line b) ls) = map (dim_line a) ls.
Proof. rewrite map_map. reflexivity. Qed.

(** Clearing after filtering is clearing. *)
Lemma clearFilter_filterByTheme (t : option string) (st : state) :
  clearFilter (filterByTheme t st) = clearFilter st.
Proof.
  unfold clearFilter, filterByTheme, updateHighlight, with_elements,
    with_theme. simpl.
  destruct (linkElements st), (nodeElements st), (labelElements st);
    simpl; rewrite ?dim_gnode_twice, ?dim_text_twice, ?dim_line_twice;
    reflexivity.
Qed.

(** Clearing an instance that carries no dimming and no theme changes
    nothing. *)
Lemma clearFilter_undimmed (st : state) :
  currentTheme st = None -> undimmed st -> clearFilter st = st.
Proof.
  intros Hc (Hl & Hg & Ht).
  unfold clearFilter, updateHighlight, with_elements, with_theme.
  destruct st as [w h sz s ns ls g cur le ne te]. simpl in *. subst cur.
  f_equal.
  - destruct le as [l|]; simpl; [|reflexivity].
    rewrite map_dim_line_undimmed; [reflexivity|]. exact (Hl l eq_refl).
  - destruct ne as [l|]; simpl; [|reflexivity].
    rewrite map_dim_gnode_undimmed; [reflexivity|]. exact (Hg l eq_refl).
  - destruct te as [l|]; simpl; [|reflexivity].
    rewrite map_dim_text_undimmed; [reflexivity|]. exact (Ht l eq_refl).
Qed.

(** After [clearFilter] nothing is dimmed. *)
Lemma clearFilter_clears (st : state) : undimmed (clearFilter st).
Proof.
  unfold undimmed, clearFilter, updateHighlight. simpl.
  repeat split; intros l Hl e He.
  - destruct (linkElements st); [|discriminate]. injection Hl as <-.
    apply in_map_iff in He. destruct He as (e0 & <- & _). reflexivity.
  - destruct (nodeElements st); [|discriminate]. injection Hl as <-.
    apply in_map_iff in He. destruct He as (e0 & <- & _). reflexivity.
  - destruct (labelElements st); [|discriminate]. injection Hl as <-.
    apply in_map_iff in He. destruct He as (e0 & <- & _). reflexivity.
Qed.

(** An instance that has only ingested carries no dimming. *)
Lemma bind_create_undimmed {D E : Type} (kd : D -> string)
  (rebind : D -> E -> E) (create : D -> E) (dimmed : E -> bool)
  (data : list D) :
  (forall d, dimmed (create d) = false) ->
  forall e, In e (bind kd rebind create ∅ data) -> dimmed e = false.
Proof.
  intros Hc. induction data as [|d data IH]; simpl; [tauto|].
  rewrite lookup_empty. intros e [<-|He]; [apply Hc|auto].
Qed.

Lemma first_render_undimmed (phyllotaxis : nat -> Q * Q) (g : snapshot)
  (w h : Z) :
  undimmed (fst (render phyllotaxis g (constructed w h))).
Proof.
  unfold undimmed, render.
  destruct (resolve_all _ _) as [rls|]; simpl;
    repeat split; intros l Hl e He; try discriminate;
    injection Hl as <-.
  - unfold renderLinks, join in He. simpl in He.
    revert e He. apply bind_create_undimmed. reflexivity.
  - unfold renderNodes, join in He. simpl in He.
    apply in_map_iff in He. destruct He as (e0 & <- & He).
    simpl. revert e0 He. apply bind_create_undimmed. reflexivity.
  - unfold renderLabels, join in He. simpl in He.
    revert e He. apply bind_create_undimmed. reflexivity.
Qed.

(** C6.  For a theme name [t] (a non-empty string, as the coordinator
    passes it), [filterByTheme(t)] leaves a node group or a label
    dimmed exactly when the theme of its node differs from [t], and a
    line dimmed exactly when the themes of both its end nodes differ
    from [t]; it changes nothing else of the elements.  Both
    [clearFilter()] and [filterByTheme(null)] after it leave no element
    dimmed, and on an instance that was never filtered the two calls
    give back the state there was. *)
Theorem filterByTheme_dims_other_themes (t : string) (st : state) :
  t <> "" ->
  let st' := filterByTheme (Some t) st in
  (forall gs, nodeElements st' = Some gs ->
     forall g, In g gs ->
       (g_dimmed g = true <-> node_theme (g_datum g) <> t))
  /\ (forall ts, labelElements st' = Some ts ->
        forall l, In l ts ->
          (t_dimmed l = true <-> node_theme (t_datum l) <> t))
  /\ (forall ls, linkElements st' = Some ls ->
        forall l, In l ls ->
          (l_dimmed l = true
           <-> node_theme (rsource (l_datum l)) <> t
               /\ node_theme (rtarget (l_datum l)) <> t))
  /\ (option_map (map (fun g => (el_id g, g_datum g, circles g)))
                 (nodeElements st')
      = option_map (map (fun g => (el_id g, g_datum g, circles g)))
                   (nodeElements st))
  /\ undimmed (clearFilter st')
  /\ undimmed (filterByTheme None st')
  /\ dim_state (clearFilter st') = dim_state (clearFilter st)
  /\ (currentTheme st = None -> undimmed st -> clearFilter st' = st).
Proof.
  intros Ht st'. unfold st'.
  split; [|split; [|split; [|split; [|split; [|split; [|split]]]]]].
  - intros gs Hgs g Hg. unfold filterByTheme, updateHighlight in Hgs.
    simpl in Hgs. destruct (nodeElements st); [|discriminate].
    injection Hgs as <-. apply in_map_iff in Hg.
    destruct Hg as (g0 & <- & _). simpl. now apply node_dimmed_iff.
  - intros ts Hts l Hl. unfold filterByTheme, updateHighlight in Hts.
    simpl in Hts. destruct (labelElements st); [|discriminate].
    injection Hts as <-. apply in_map_iff in Hl.
    destruct Hl as (e0 & <- & _). simpl. now apply node_dimmed_iff.
  - intros ls Hls l Hl. unfold filterByTheme, updateHighlight in Hls.
    simpl in Hls. destruct (linkElements st); [|discriminate].
    injection Hls as <-. apply in_map_iff in Hl.
    destruct Hl as (e0 & <- & _). simpl. now apply link_dimmed_iff.
  - unfold filterByTheme, updateHighlight. simpl.
    destruct (nodeElements st); simpl; [|reflexivity].
    rewrite map_map. reflexivity.
  - apply clearFilter_clears.
  - apply (clearFilter_clears (filterByTheme (Some t) st)).
  - rewrite clearFilter_filterByTheme. reflexivity.
  - intros Hc Hu. rewrite clearFilter_filterByTheme.
    now apply clearFilter_undimmed.
Qed.

(** Filtering the two-node example by the theme of A dims B and its
    label, and not the line between them. *)
Lemma filterByTheme_dims_other_themes_witness :
  "ml" <> ""
  /\ dim_state (filterByTheme (Some "ml") (Sample.after Sample.pair))
     = (Some [false], Some [false; true], Some [false; true])
  /\ clearFilter (filterByTheme (Some "ml") (Sample.after Sample.pair))
     = Sample.after Sample.pair.
Proof.
  assert (Hne : "ml" <> "") by discriminate.
  split; [exact Hne|]. split; [vm_compute; reflexivity|].
  destruct (filterByTheme_dims_other_themes "ml"
              (Sample.after Sample.pair) Hne)
    as (_ & _ & _ & _ & _ & _ & _ & Hback).
  apply Hback; [reflexivity|].
  apply first_render_undimmed.
Defined.

(** The empty string is not a theme for the filter: it dims nothing. *)
Lemma filterByTheme_empty_name (st : state) :
  undimmed (filterByTheme (Some "") st).
Proof.
  unfold undimmed, filterByTheme, updateHighlight. simpl.
  repeat split; intros l Hl e He.
  - destruct (linkElements st); [|discriminate]. injection Hl as <-.
    apply in_map_iff in He. destruct He as (e0 & <- & _). reflexivity.
  - destruct (nodeElements st); [|discriminate]. injection Hl as <-.
    apply in_map_iff in He. destruct He as (e0 & <- & _). reflexivity.
  - destruct (labelElements st); [|discriminate]. injection Hl as <-.
    apply in_map_iff in He. destruct He as (e0 & <- & _). reflexivity.
Qed.
End ThemeFilter.

(** ** Resize *)
Section Resize.
Import JS KnowledgeGraph.

(** C8.  A resize event that reports the stored width and height
    leaves the whole instance, its simulation included, as it is.  A
    resize event that reports another width or height stores the new
    size and, when there is a simulation, moves the centering force to
    the middle of the new viewport, sets the energy to 0.3 and restarts
    it once.  So the simulation is touched only when a dimension
    changed. *)
Theorem onWindowResize_acts_on_change_only (newWidth newHeight : Z)
  (st : state) :
  let st' := onWindowResize newWidth newHeight st in
  (newWidth = width st /\ newHeight = height st -> st' = st)
  /\ (newWidth <> width st \/ newHeight <> height st ->
      width st' = newWidth /\ height st' = newHeight
      /\ sim st'
         = option_map
             (fun s => {| center := (half newWidth, half newHeight);
                          alpha := 3 # 10;
                          alphaTarget := alphaTarget s;
                          restarts := S (restarts s) |})
             (sim st))
  /\ (sim st' <> sim st ->
      newWidth <> width st \/ newHeight <> height st).
Proof.
  intros st'. unfold st', onWindowResize.
  destruct (Z.eqb_spec newWidth (width st)) as [Hw|Hw];
    destruct (Z.eqb_spec newHeight (height st)) as [Hh|Hh]; simpl;
    repeat split; try tauto; intros [? | ?]; congruence.
Qed.

(** The two resize listeners of the page both run on one event: when
    the viewport goes from 800 x 600 to 1024 x 600, the first call
    restarts the simulation and the second, which sees the size already
    stored, does nothing. *)
Lemma onWindowResize_acts_on_change_only_witness :
  let st := Sample.after Sample.pair in
  let st1 := onWindowResize 1024 600 st in
  (1024 <> width st \/ 600 <> height st)%Z
  /\ option_map restarts (sim st1) = Some 1%nat
  /\ (1024 = width st1 /\ 600 = height st1)%Z
  /\ onWindowResize 1024 600 st1 = st1.
Proof.
  intros st st1.
  assert (Hchg : (1024 <> width st \/ 600 <> height st)%Z)
    by (left; vm_compute; discriminate).
  assert (Hsame : (1024 = width st1 /\ 600 = height st1)%Z)
    by (split; reflexivity).
  split; [exact Hchg|].
  destruct (onWindowResize_acts_on_change_only 1024 600 st)
    as (_ & Hmove & _).
  destruct (Hmove Hchg) as (_ & _ & Hsim).
  split; [fold st1 in Hsim; rewrite Hsim; reflexivity|].
  split; [exact Hsame|].
  destruct (onWindowResize_acts_on_change_only 1024 600 st1)
    as (Hnoop & _).
  exact (Hnoop Hsame).
Defined.
End Resize.

(** ** Theme selection *)
Section ThemeSelection.
Import JS Sidebar.

Lemma themeClickCallback_no_highlight (t : option string) (c : App.graph_call) :
  In c (App.themeClickCallback t) -> App.is_highlight_call c = false.
Proof.
  unfold App.themeClickCallback.
  destruct t as [t|]; [destruct (truthy t)|]; simpl;
    intros [<-|[<-|[]]]; reflexivity.
Qed.

(** C10.  Whatever theme is selected ([None] is "All Themes"),
    [selectTheme] leaves the search text empty, the search box empty and
    the result panel hidden and emptied.  What it adds to the trace is at
    most the one call of the theme callback, made with the instance
    already in that state; it never calls the search callback, and the
    coordinator's theme callback makes no call of
    [highlightSearchResults]: a highlight on the graph stays. *)
Theorem selectTheme_resets_search_without_search_callback
  (themeName : option string) (w : world) :
  let w' := fst (selectTheme themeName w) in
  searchQuery (this (sb w')) = ""
  /\ searchInput_value (doc (sb w')) = ""
  /\ searchResults_shown (doc (sb w')) = false
  /\ searchResultsList (doc (sb w')) = []
  /\ exists new,
      trace w' = trace w ++ new
      /\ (new = [] \/ new = [EvThemeClick themeName (sb w')])
      /\ (snd (selectTheme themeName w) = Normal ->
          onThemeClick (this (sb w)) = true ->
          new = [EvThemeClick themeName (sb w')])
      /\ (forall e, In e new ->
            exists s, e = EvThemeClick themeName s
                      /\ searchQuery (this s) = ""
                      /\ searchResults_shown (doc s) = false)
      /\ (forall ids, ~ In (EvSearch ids) new)
      /\ (forall e c, In e new -> In c (App.dispatch e) ->
            App.is_highlight_call c = false).
Proof.
  intros w'. unfold w', selectTheme.
  destruct (onThemeClick (this (sb w))) eqn:Hcb;
    destruct themeName as [name|];
    [| destruct (map deactivate (theme_items (doc (sb w))))
         as [|first rest] eqn:Hitems
     | | destruct (map deactivate (theme_items (doc (sb w))))
         as [|first rest] eqn:Hitems ];
    simpl; rewrite ?Hcb, ?Hitems; simpl;
    repeat (split; [reflexivity|]).
  - eexists. split; [reflexivity|]. split; [right; reflexivity|].
    split; [reflexivity|]. split; [|split].
    + intros e [<-|[]]. eexists. repeat split.
    + intros ids [H|[]]. discriminate H.
    + intros e c [<-|[]] Hc.
      now apply (themeClickCallback_no_highlight (Some name)).
  - exists []. rewrite app_nil_r. split; [reflexivity|].
    split; [left; reflexivity|]. split; [discriminate|].
    split; [|split]; [intros e []|intros ids []|intros e c []].
  - eexists. split; [reflexivity|]. split; [right; reflexivity|].
    split; [reflexivity|]. split; [|split].
    + intros e [<-|[]]. eexists. repeat split.
    + intros ids [H|[]]. discriminate H.
    + intros e c [<-|[]] Hc.
      now apply (themeClickCallback_no_highlight None).
  - exists []. rewrite app_nil_r. split; [reflexivity|].
    split; [left; reflexivity|]. split; [discriminate|].
    split; [|split]; [intros e []|intros ids []|intros e c []].
  - exists []. rewrite app_nil_r. split; [reflexivity|].
    split; [left; reflexivity|]. split; [discriminate|].
    split; [|split]; [intros e []|intros ids []|intros e c []].
  - exists []. rewrite app_nil_r. split; [reflexivity|].
    split; [left; reflexivity|]. split; [discriminate|].
    split; [|split]; [intros e []|intros ids []|intros e c []].
Qed.

(** A search for "alpha" is showing two hits when "All Themes" is
    clicked: the text and the panel are reset, and the one event is the
    theme callback. *)
Lemma selectTheme_after_search :
  let w := respond 0 (answer ["A"; "B"])
             (advance 300 (onInput "alpha" wired)) in
  let w' := fst (selectTheme None w) in
  trace w = [EvFetch (request_for "alpha" (sb wired));
             EvSearch (Some ["A"; "B"])]
  /\ searchResults_shown (doc (sb w)) = true
  /\ searchResults_shown (doc (sb w')) = false
  /\ searchQuery (this (sb w')) = ""
  /\ trace w' = trace w ++ [EvThemeClick None (sb w')].
Proof. repeat apply conj; vm_compute; reflexivity. Qed.
(** The theme filter does not touch the circles. *)
Lemma filter_keeps_look (t : option string) (st : KnowledgeGraph.state) :
  KnowledgeGraph.look (KnowledgeGraph.filterByTheme t st)
  = KnowledgeGraph.look st.
Proof.
  unfold KnowledgeGraph.look, KnowledgeGraph.filterByTheme,
    KnowledgeGraph.updateHighlight. simpl.
  destruct (KnowledgeGraph.nodeElements st); simpl; [|reflexivity].
  rewrite map_map. reflexivity.
Qed.

(** Node A of the two-node example is highlighted; then "All Themes" is
    selected and the coordinator clears the filter and renders the full
    snapshot again.  The circle of A still has the gold stroke, the
    circle of B still has opacity 0.7; each group has got one more
    circle in baseline style. *)
Lemma highlight_survives_theme_selection :
  let g := KnowledgeGraph.highlightSearchResults ["A"]
             (Sample.after Sample.pair) in
  let g' := App.run_calls Sample.origin Sample.pair
              (App.themeClickCallback None) g in
  KnowledgeGraph.look g
  = Some [[("#ffd700", 20, 1, Some "brightness(1.2)")];
          [("#ffffff", 2, 7 # 10, None)]]%Q
  /\ KnowledgeGraph.look g'
     = Some [[("#ffd700", 20, 1, Some "brightness(1.2)");
              ("#ffffff", 2, 1, None)];
             [("#ffffff", 2, 7 # 10, None);
              ("#ffffff", 2, 1, None)]]%Q.
Proof. repeat apply conj; vm_compute; reflexivity. Qed.
End ThemeSelection.

(** ** Debounced search *)
Section Debounce.
Import JS Sidebar.

Lemma filter_none {A : Type} (f : A -> bool) (l : list A) :
  (forall a, In a l -> f a = false) -> List.filter f l = [].
Proof.
  induction l as [|a l IH]; intros H; simpl; [reflexivity|].
  rewrite (H a (or_introl eq_refl)). apply IH. intros b Hb. apply H. now right.
Qed.

Lemma set_now_same (w : world) : set_now (now w) w = w.
Proof. destruct w; reflexivity. Qed.

Lemma tick_idle (w : world) :
  (forall h d, In (h, d) (timers w) -> S (now w) < d) ->
  tick w = set_now (S (now w)) w.
Proof.
  intros H. unfold tick.
  assert (Hdue : List.filter (fun e => (snd e <=? S (now w))%nat) (timers w) = []).
  { apply filter_none. intros [h d] Hin. simpl. apply Nat.leb_gt. eauto. }
  assert (Hrest : List.filter (fun e => negb (snd e <=? S (now w))%nat) (timers w) = timers w).
  { apply forallb_filter_id. apply forallb_forall. intros [h d] Hin. simpl.
    apply negb_true_iff, Nat.leb_gt. eauto. }
  rewrite Hdue, Hrest. reflexivity.
Qed.

Lemma advance_idle (g : nat) (w : world) :
  (forall h d, In (h, d) (timers w) -> now w + g < d) ->
  advance g w = set_now (now w + g) w.
Proof.
  revert w. induction g as [|g IH]; intros w H; simpl.
  - rewrite Nat.add_0_r. symmetry. apply set_now_same.
  - rewrite tick_idle by (intros h d Hin; specialize (H h d Hin); lia).
    rewrite IH by (simpl; intros h d Hin; specialize (H h d Hin); lia).
    unfold set_now. simpl. f_equal. lia.
Qed.

Lemma advance_add (a b : nat) (w : world) :
  advance (a + b) w = advance b (advance a w).
Proof. revert w. induction a as [|a IH]; intros w; simpl; [reflexivity|apply IH]. Qed.

Lemma clearTimeout_debounced (w : world) (s : sidebar) :
  debounced w -> searchTimeout (this s) = searchTimeout (this (sb w)) ->
  timers (clearTimeout (searchTimeout (this s)) (with_sb s w)) = [].
Proof.
  intros Hd Hs. rewrite Hs. unfold clearTimeout.
  destruct (searchTimeout (this (sb w))) as [h0|] eqn:E; simpl.
  - apply filter_none. intros [h d] Hin. simpl.
    specialize (Hd h d Hin). rewrite E in Hd. injection Hd as ->.
    rewrite Nat.eqb_refl. reflexivity.
  - destruct (timers w) as [|[h d] l] eqn:Et; [reflexivity|].
    specialize (Hd h d). rewrite Et in Hd. specialize (Hd (or_introl eq_refl)). congruence.
Qed.

Lemma clearTimeout_frame (h : option nat) (w : world) :
  sb (clearTimeout h w) = sb w /\ now (clearTimeout h w) = now w
  /\ next_handle (clearTimeout h w) = next_handle w
  /\ issued (clearTimeout h w) = issued w /\ trace (clearTimeout h w) = trace w.
Proof. destruct h; repeat split. Qed.

Lemma call_onSearch_frame (ids : option (list string)) (w : world) :
  sb (call_onSearch ids w) = sb w /\ now (call_onSearch ids w) = now w
  /\ timers (call_onSearch ids w) = timers w
  /\ issued (call_onSearch ids w) = issued w.
Proof. unfold call_onSearch. destruct (onSearch _); repeat split. Qed.

Lemma onInput_spec (v : string) (w : world) :
  debounced w ->
  timers (onInput v w)
  = (if truthy v then [(next_handle w, now w + 300)] else [])
  /\ issued (onInput v w) = issued w
  /\ now (onInput v w) = now w
  /\ searchQuery (this (sb (onInput v w))) = v
  /\ selectedTheme (this (sb (onInput v w))) = selectedTheme (this (sb w))
  /\ semanticToggle_checked (doc (sb (onInput v w))) = semanticToggle_checked (doc (sb w))
  /\ debounced (onInput v w).
Proof.
  intros Hd. unfold onInput.
  set (s2 := if truthy v then set_clear_active true _ else _).
  assert (Hs2 : searchTimeout (this s2) = searchTimeout (this (sb w)))
    by (unfold s2; destruct (truthy v); reflexivity).
  assert (Hq : searchQuery (this s2) = v)
    by (unfold s2; destruct (truthy v); reflexivity).
  assert (Hth : selectedTheme (this s2) = selectedTheme (this (sb w)))
    by (unfold s2; destruct (truthy v); reflexivity).
  assert (Hsem : semanticToggle_checked (doc s2) = semanticToggle_checked (doc (sb w)))
    by (unfold s2; destruct (truthy v); reflexivity).
  pose proof (clearTimeout_debounced w s2 Hd Hs2) as Hc.
  destruct (clearTimeout_frame (searchTimeout (this s2)) (with_sb s2 w)) as (F1 & F2 & F3 & F4 & F5).
  set (w1 := clearTimeout _ _) in *.
  destruct (truthy v).
  - unfold setTimeout. simpl. rewrite Hc, F1, F2, F3, F4. simpl.
    repeat split; try assumption.
    intros h d [[= <- <-]|[]]. reflexivity.
  - destruct (call_onSearch_frame None w1) as (G1 & G2 & G3 & G4).
    rewrite G3, G4, G2, G1, Hc, F1, F2, F4. simpl.
    repeat split; try assumption.
    intros h d Hin. unfold debounced in *. rewrite G3, Hc in Hin. destruct Hin.
Qed.

Lemma key_then_pause (v : string) (gap : nat) (w : world) :
  debounced w -> gap < 300 -> quiet_step w (advance gap (onInput v w)).
Proof.
  intros Hd Hg.
  destruct (onInput_spec v w Hd) as (Ht & Hi & Hn & _ & Hth & Hsem & Hd').
  rewrite advance_idle.
  - unfold quiet_step. simpl. repeat split; assumption.
  - intros h d Hin. rewrite Ht in Hin. destruct (truthy v); [|destruct Hin].
    destruct Hin as [[= <- <-]|[]]. lia.
Qed.

Lemma type_keys_quiet (ks : list (string * nat)) (w : world) :
  debounced w -> within_window ks -> quiet_step w (type_keys ks w).
Proof.
  revert w. induction ks as [|[v gap] ks IH]; intros w Hd Hw; simpl.
  - unfold quiet_step. auto.
  - assert (Hg : gap < 300) by (apply (Hw v); now left).
    destruct (key_then_pause v gap w Hd Hg) as (Hd1 & Hi1 & Ht1 & Hs1).
    destruct (IH _ Hd1 (fun v' g' H => Hw v' g' (or_intror H)))
      as (Hd2 & Hi2 & Ht2 & Hs2).
    unfold quiet_step. repeat split; [exact Hd2| congruence ..].
Qed.

Lemma last_key_then_delay (v : string) (w : world) :
  debounced w ->
  issued (advance 300 (onInput v w))
  = issued w ++ (if truthy v then [request_for v (sb w)] else []).
Proof.
  intros Hd.
  destruct (onInput_spec v w Hd) as (Ht & Hi & Hn & Hq & Hth & Hsem & _).
  destruct (truthy v) eqn:Hv.
  - change 300 with (299 + 1). rewrite advance_add.
    rewrite (advance_idle 299)
      by (intros h d Hin; rewrite Ht in Hin;
          destruct Hin as [[= <- <-]|[]]; lia).
    simpl. unfold tick. simpl. rewrite Ht. simpl.
    replace (now w + 300 <=? S (now (onInput v w) + 299))%nat with true
      by (symmetry; apply Nat.leb_le; lia).
    simpl. unfold performSearch. simpl. rewrite Hq, Hv. simpl.
    rewrite Hi. f_equal. unfold request_for. rewrite Hth, Hsem. reflexivity.
  - rewrite advance_idle by (intros h d Hin; rewrite Ht in Hin; destruct Hin).
    simpl. rewrite Hi, app_nil_r. reflexivity.
Qed.

Lemma burst_issued (ks : list (string * nat)) (last : string) (w : world) :
  debounced w -> within_window ks ->
  issued (burst ks last w)
  = issued w ++ (if truthy last then [request_for last (sb w)] else []).
Proof.
  intros Hd Hw. unfold burst.
  destruct (type_keys_quiet ks w Hd Hw) as (Hd' & Hi & Hth & Hsem).
  rewrite (last_key_then_delay last _ Hd'), Hi.
  unfold request_for. rewrite Hth, Hsem. reflexivity.
Qed.

Lemma wired_debounced : debounced wired.
Proof. intros h d []. Qed.

(** C7, as amended.  Take an instance whose only pending timer, if any,
    is the one of the search box.  After a burst of keystrokes, each less
    than 300 ms after the one before, followed by 300 ms of quiet: if the
    latest text is not empty, exactly one search request has been issued,
    for the latest text (with the selected theme and the mode of the
    toggle); if the latest text is empty, none has. *)
Theorem burst_fires_once_for_latest_text (ks : list (string * nat))
  (last : string) (w : world) :
  debounced w -> within_window ks ->
  (last <> "" ->
   issued (burst ks last w) = issued w ++ [request_for last (sb w)])
  /\ (last = "" -> issued (burst ks last w) = issued w).
Proof.
  intros Hd Hw. rewrite (burst_issued ks last w Hd Hw). split.
  - intros Hne. unfold truthy.
    destruct (String.eqb_spec last ""); [congruence|reflexivity].
  - intros ->. simpl. apply app_nil_r.
Qed.

(** The example of the specification: "alp", then "alpha" 120 ms later. *)
Lemma burst_fires_once_for_latest_text_witness :
  debounced wired /\ within_window [("alp", 120)] /\ "alpha" <> ""
  /\ issued (burst [("alp", 120)] "alpha" wired)
     = [request_for "alpha" (sb wired)].
Proof.
  assert (Hw : within_window [("alp", 120)]).
  { intros v gap [[= <- <-]|[]]. lia. }
  assert (Hne : "alpha" <> "") by discriminate.
  split; [exact wired_debounced|]. split; [exact Hw|]. split; [exact Hne|].
  destruct (burst_fires_once_for_latest_text [("alp", 120)] "alpha" wired
              wired_debounced Hw) as [Hone _].
  exact (Hone Hne).
Defined.

(** C7 as stated fails when the burst ends with an empty search box:
    typing "a" and deleting it 100 ms later fires no search at all. *)
Lemma cleared_text_fires_nothing : ~ one_search_per_burst.
Proof.
  intros H.
  assert (Hw : within_window [("a", 100)]).
  { intros v gap [[= <- <-]|[]]. lia. }
  destruct (H [("a", 100)] "" wired wired_debounced Hw) as (r & Hr & _).
  vm_compute in Hr. discriminate Hr.
Qed.
Lemma keeps_timers_refl (w : world) : keeps_timers w w.
Proof. split; auto. Qed.

Lemma keeps_timers_trans (a b c : world) :
  keeps_timers a b -> keeps_timers b c -> keeps_timers a c.
Proof. intros [H1 H2] [H3 H4]. split; [auto|congruence]. Qed.

Lemma keeps_timers_debounced (w w' : world) :
  keeps_timers w w' -> debounced w -> debounced w'.
Proof.
  intros [Hsub Hh] Hd h d Hin. rewrite Hh. apply (Hd h d). auto.
Qed.

Lemma performSearch_keeps_timers (w : world) :
  keeps_timers w (performSearch w).
Proof.
  unfold performSearch, call_onSearch.
  destruct (truthy _); simpl; try destruct (onSearch _);
    split; simpl; auto.
Qed.

Lemma fire_keeps_timers {A : Type} (due : list A) (w : world) :
  keeps_timers w (fold_left (fun w _ => performSearch w) due w).
Proof.
  revert w. induction due as [|e due IH]; intros w; simpl.
  - apply keeps_timers_refl.
  - eapply keeps_timers_trans; [apply performSearch_keeps_timers|apply IH].
Qed.

Lemma tick_keeps_timers (w : world) : keeps_timers w (tick w).
Proof.
  unfold tick.
  eapply keeps_timers_trans; [|apply fire_keeps_timers].
  split; [|reflexivity]. simpl. intros e He.
  apply List.filter_In in He. tauto.
Qed.

Lemma step_debounced (w w' : world) :
  debounced w -> step w w' -> debounced w'.
Proof.
  intros Hd Hs. destruct Hs.
  - apply (onInput_spec v w Hd).
  - apply (keeps_timers_debounced w); [apply tick_keeps_timers|exact Hd].
  - apply (keeps_timers_debounced w); [|exact Hd].
    unfold respond. destruct (existsb _ _); [|apply keeps_timers_refl].
    destruct o; unfold call_onSearch; simpl;
      [destruct (onSearch _)|]; split; auto.
  - apply (keeps_timers_debounced w); [|exact Hd].
    unfold onClearClick, call_onSearch; simpl.
    destruct (onSearch _); split; auto.
  - apply (keeps_timers_debounced w); [|exact Hd].
    unfold onSemanticChange. simpl. destruct (truthy _).
    + apply (performSearch_keeps_timers
               (with_sb (set_semantic b (sb w)) w)).
    + split; auto.
  - apply (keeps_timers_debounced w); [|exact Hd].
    unfold selectTheme.
    destruct t as [name|];
      [|destruct (map deactivate _)]; simpl;
      try destruct (onThemeClick _); split; auto.
  - apply (keeps_timers_debounced w); [|exact Hd]. split; auto.
  - apply (keeps_timers_debounced w); [|exact Hd]. split; auto.
Qed.

(** Every world the listeners can produce has at most the search timer
    pending. *)
Lemma reachable_debounced (w : world) : reachable w -> debounced w.
Proof.
  induction 1 as [|w w' _ IH Hs].
  - intros h d [].
  - exact (step_debounced w w' IH Hs).
Qed.
End Debounce.

(** ** Search responses *)
Section Responses.
Import JS Sidebar.

Lemma existsb_eqb_In (i : nat) (l : list nat) :
  In i l -> existsb (Nat.eqb i) l = true.
Proof.
  intros H. apply existsb_exists. exists i. split; [exact H|].
  apply Nat.eqb_refl.
Qed.

(** C1, as amended.  A request carries no generation number, and the
    answer to any request still in flight is applied when it arrives,
    whatever was issued or answered since: it becomes the result set, it
    is what the panel shows, and its ids are what the search callback is
    given.  The result set is that of the answer that arrived last. *)
Theorem respond_applies_every_answer (w : world) (i : nat)
  (d : search_data) :
  In i (inflight w) ->
  let w' := respond i (Ok d) w in
  searchResults (this (sb w')) = data_results d
  /\ searchResultsList (doc (sb w')) = data_results d
  /\ searchResults_shown (doc (sb w')) = true
  /\ trace w'
     = trace w ++ (if onSearch (this (sb w))
                   then [EvSearch (Some (map res_id (data_results d)))]
                   else [])
  /\ issued w' = issued w
  /\ ~ In i (inflight w').
Proof.
  intros Hin w'. unfold w', respond.
  rewrite (existsb_eqb_In i _ Hin). unfold call_onSearch. simpl.
  destruct (onSearch (this (sb w))); simpl;
    (repeat (split; [first [reflexivity | symmetry; apply app_nil_r]|]));
    intros H; apply List.filter_In in H; destruct H as [_ H];
    rewrite Nat.eqb_refl in H; discriminate H.
Qed.

Lemma respond_applies_every_answer_witness :
  In 0 (inflight (respond 1 (answer ["B"]) two_in_flight))
  /\ searchResults
       (this (sb (respond 0 (answer ["A"])
                    (respond 1 (answer ["B"]) two_in_flight))))
     = [hit "A"].
Proof.
  assert (Hin : In 0 (inflight (respond 1 (answer ["B"]) two_in_flight)))
    by (vm_compute; left; reflexivity).
  split; [exact Hin|].
  destruct (respond_applies_every_answer _ 0
              {| data_count := 1; data_semantic := false;
                 data_results := [hit "A"] |} Hin) as [Hres _].
  exact Hres.
Defined.

(** C1 as stated fails: with the requests for "alp" and "alpha" both in
    flight, the answer for "alpha" arrives, then the answer for "alp";
    the result set ends as that of "alp". *)
Lemma late_answer_overwrites : ~ discards_stale.
Proof.
  intros H.
  specialize (H two_in_flight 0 1
                {| data_count := 1; data_semantic := false;
                   data_results := [hit "A"] |}
                {| data_count := 1; data_semantic := false;
                   data_results := [hit "B"] |}).
  assert (H01 : 0 < 1) by lia.
  assert (H0 : In 0 (inflight two_in_flight))
    by (vm_compute; left; reflexivity).
  assert (H1 : In 1 (inflight two_in_flight))
    by (vm_compute; right; left; reflexivity).
  specialize (H H01 H0 H1). vm_compute in H. discriminate H.
Qed.
End Responses.

(** ** Insight loading *)
Section InsightLoading.
Import JS InsightViewer.
Variable marked_parse : string -> string.
Variable processWikilinks : string -> string.

(** [loadInsight] catches whatever goes wrong inside it, a failing
    [render] included. *)
Lemma loadInsight_never_throws (r : fetched) (v : viewer) :
  snd (loadInsight marked_parse processWikilinks r v) = Normal.
Proof.
  unfold loadInsight.
  destruct r as [|[|] [i|]]; try reflexivity.
  destruct (render _ _ i _) as [v' [|]]; reflexivity.
Qed.

Lemma loadInsight_failed (r : fetched) (v : viewer) :
  fetch_failed r = true ->
  loadInsight marked_parse processWikilinks r v
  = (showError "Failed to load insight" v, Normal).
Proof.
  destruct r as [|[|] [i|]]; simpl; intros H; try reflexivity.
  discriminate H.
Qed.
End InsightLoading.

Section InsightLoadingClaim.
Import JS InsightViewer.

(** C9.  When the request for an insight fails (it is rejected, or
    answered with a status that is not ok, or its body is not JSON),
    [loadInsight] completes normally, and the viewer shows the message
    "Failed to load insight" in place of the detail pane, whose content
    is hidden; the rest of the viewer is as it was.  Through the
    coordinator's [loadInsight] the graph engine and the navigation panel
    are left exactly as they were. *)
Theorem loadInsight_failure_shows_inline_error
  (marked_parse processWikilinks : string -> string)
  (r : fetched) (a : App.app) :
  fetch_failed r = true ->
  let v := App.app_viewer a in
  let res := App.loadInsight marked_parse processWikilinks r a in
  snd res = Normal
  /\ loadInsight marked_parse processWikilinks r v
     = (showError "Failed to load insight" v, Normal)
  /\ App.app_viewer (fst res) = showError "Failed to load insight" v
  /\ empty_text (App.app_viewer (fst res)) = "Failed to load insight"
  /\ empty_display (App.app_viewer (fst res)) = "flex"
  /\ detail_display (App.app_viewer (fst res)) = "none"
  /\ App.app_graph (fst res) = App.app_graph a
  /\ App.app_sidebar (fst res) = App.app_sidebar a.
Proof.
  intros Hf v res. unfold res, App.loadInsight.
  fold v. rewrite (loadInsight_failed _ _ r v Hf). simpl.
  repeat split.
Qed.

(** The backend answers 404 for an unknown id. *)
Lemma loadInsight_failure_shows_inline_error_witness :
  let r := Response false None in
  let res := App.loadInsight Sample.verbatim Sample.verbatim r
               Sample.application in
  fetch_failed r = true
  /\ snd res = Normal
  /\ empty_text (App.app_viewer (fst res)) = "Failed to load insight"
  /\ App.app_graph (fst res) = App.app_graph Sample.application.
Proof.
  intros r res.
  assert (Hf : fetch_failed r = true) by reflexivity.
  destruct (loadInsight_failure_shows_inline_error Sample.verbatim
              Sample.verbatim r Sample.application Hf)
    as (Hc & _ & _ & Ht & _ & _ & Hg & _).
  split; [exact Hf|]. split; [exact Hc|]. split; [exact Ht|exact Hg].
Defined.
End InsightLoadingClaim.

(** * Further properties of the code *)

(** ** Ingest: what [render] keeps, and when it fails *)
Section IngestFacts.
Import JS KnowledgeGraph.
Variable phyllotaxis : nat -> Q * Q.

Lemma initialize_node_payload (i : nat) (n : node) :
  payload (initialize_node phyllotaxis i n) = payload n.
Proof.
  unfold initialize_node.
  destruct (fx n), (x n), (fy n), (y n); reflexivity.
Qed.

Lemma initialize_node_placed (i : nat) (n : node) :
  x (initialize_node phyllotaxis i n) <> None
  /\ y (initialize_node phyllotaxis i n) <> None.
Proof.
  unfold initialize_node.
  destruct (fx n), (x n), (fy n), (y n); simpl; split; discriminate.
Qed.

Lemma imap_keeps_payload (f : nat -> node -> node) (l : list node) :
  (forall i n, payload (f i n) = payload n) ->
  map payload (imap f l) = map payload l.
Proof.
  revert f. induction l as [|a l IH]; intros f Hf; simpl; [reflexivity|].
  rewrite Hf. f_equal. apply IH. intros i n. apply Hf.
Qed.

Lemma working_nodes_payload (ns : list node) (ls : list link) :
  map payload (initializeNodes phyllotaxis (assign_connections ns ls))
  = map payload ns.
Proof.
  unfold initializeNodes, assign_connections.
  rewrite imap_keeps_payload by apply initialize_node_payload.
  rewrite map_map. reflexivity.
Qed.

Lemma working_nodes_ids (ns : list node) (ls : list link) :
  map node_id (initializeNodes phyllotaxis (assign_connections ns ls))
  = map node_id ns.
Proof.
  pose proof (working_nodes_payload ns ls) as H.
  apply (f_equal (map (fun p => fst (fst (fst (fst p)))))) in H.
  rewrite !map_map in H. exact H.
Qed.

(** X1.  An ingest changes neither the order of the nodes nor what the
    backend said about them (id, label, theme, novelty score, colour);
    it keeps the edges as they came; and every node of the working set
    has both coordinates afterwards.  This holds whether or not the
    ingest runs to its end. *)
Theorem render_keeps_payload_and_places_nodes (g : snapshot) (st : state) :
  let st' := fst (render phyllotaxis g st) in
  map payload (nodes st') = map payload (snap_nodes g)
  /\ length (nodes st') = length (snap_nodes g)
  /\ links st' = snap_edges g
  /\ graph st' = Some g
  /\ (forall n, In n (nodes st') -> x n <> None /\ y n <> None).
Proof.
  intros st'. unfold st'. rewrite render_nodes.
  split; [apply working_nodes_payload|].
  split.
  { rewrite <- (length_map payload), working_nodes_payload.
    apply length_map. }
  split.
  { unfold render. rewrite copy_edges_id.
    destruct (resolve_all _ _); reflexivity. }
  split.
  { unfold render. destruct (resolve_all _ _); reflexivity. }
  intros n Hn. apply in_initializeNodes in Hn.
  destruct Hn as (i & n0 & _ & ->). apply initialize_node_placed.
Qed.

Lemma node_by_id_acc (ns : list node) (m : gmap string node) (k : string) :
  is_Some (foldl (fun m n => <[node_id n := n]> m) m ns !! k)
  <-> (exists n, In n ns /\ node_id n = k) \/ is_Some (m !! k).
Proof.
  revert m. induction ns as [|a ns IH]; intros m; simpl.
  - split; [auto|]. intros [(n & [] & _)|H]. exact H.
  - rewrite IH. split.
    + intros [(n & Hin & Hk)|H]; [left; eauto|].
      destruct (decide (node_id a = k)) as [<-|Hne]; [left; eauto|].
      rewrite lookup_insert_ne in H by exact Hne. auto.
    + intros [(n & [->|Hin] & Hk)|H].
      * right. rewrite Hk, lookup_insert_eq. eauto.
      * left. eauto.
      * right. destruct (decide (node_id a = k)) as [<-|Hne].
        -- rewrite lookup_insert_eq. eauto.
        -- rewrite lookup_insert_ne by exact Hne. exact H.
Qed.

Lemma node_by_id_is_Some (ns : list node) (k : string) :
  is_Some (node_by_id ns !! k) <-> In k (map node_id ns).
Proof.
  unfold node_by_id. rewrite node_by_id_acc, in_map_iff.
  split.
  - intros [(n & Hin & Hk)|H]; [eauto|].
    rewrite lookup_empty in H. destruct H as [? H]. discriminate H.
  - intros (n & Hk & Hin). left. eauto.
Qed.

Lemma resolve_all_is_Some (m : gmap string node) (ls : list link) :
  is_Some (resolve_all m ls)
  <-> forall l, In l ls -> is_Some (m !! source l) /\ is_Some (m !! target l).
Proof.
  induction ls as [|l ls IH]; simpl.
  - split; [intros _ l []|eauto].
  - unfold resolve at 1.
    destruct (m !! source l) as [s|] eqn:Es;
      destruct (m !! target l) as [t|] eqn:Et;
      destruct (resolve_all m ls) as [rs|] eqn:Er.
    + split; [|eauto]. intros _ l' [<-|Hin].
      * rewrite Es, Et. eauto.
      * apply (proj1 IH); eauto.
    + split; [intros [? H]; discriminate H|].
      intros H. destruct (proj2 IH) as [? Hn]; [|discriminate Hn].
      intros l' Hin. apply H. now right.
    + split; [intros [? H]; discriminate H|].
      intros H. destruct (H l (or_introl eq_refl)) as [_ [? Hn]].
      rewrite Et in Hn. discriminate Hn.
    + split; [intros [? H]; discriminate H|].
      intros H. destruct (H l (or_introl eq_refl)) as [_ [? Hn]].
      rewrite Et in Hn. discriminate Hn.
    + split; [intros [? H]; discriminate H|].
      intros H. destruct (H l (or_introl eq_refl)) as [[? Hn] _].
      rewrite Es in Hn. discriminate Hn.
    + split; [intros [? H]; discriminate H|].
      intros H. destruct (H l (or_introl eq_refl)) as [[? Hn] _].
      rewrite Es in Hn. discriminate Hn.
    + split; [intros [? H]; discriminate H|].
      intros H. destruct (H l (or_introl eq_refl)) as [[? Hn] _].
      rewrite Es in Hn. discriminate Hn.
    + split; [intros [? H]; discriminate H|].
      intros H. destruct (H l (or_introl eq_refl)) as [[? Hn] _].
      rewrite Es in Hn. discriminate Hn.
Qed.

Lemma render_completes_iff (g : snapshot) (st : state) :
  snd (render phyllotaxis g st) = Normal <-> endpoints_known g.
Proof.
  unfold render. rewrite copy_edges_id.
  set (ns := initializeNodes _ _).
  assert (Hids : forall k, is_Some (node_by_id ns !! k)
                           <-> exists n, In n (snap_nodes g) /\ node_id n = k).
  { intros k. rewrite node_by_id_is_Some. unfold ns.
    rewrite working_nodes_ids, in_map_iff.
    split; intros (n & H1 & H2); eauto. }
  pose proof (resolve_all_is_Some (node_by_id ns) (snap_edges g)) as Hres.
  unfold endpoints_known.
  destruct (resolve_all (node_by_id ns) (snap_edges g)) as [rls|]; simpl.
  - split; [|reflexivity]. intros _ e He.
    destruct (proj1 Hres (ltac:(eauto)) e He) as [Hs Ht].
    split; apply Hids; assumption.
  - split; [discriminate|]. intros H.
    destruct (proj2 Hres) as [? Hn]; [|discriminate Hn].
    intros l Hl. destruct (H l Hl) as [Hs Ht].
    split; apply Hids; assumption.
Qed.

(** X2.  An ingest runs to its end exactly when every end of every edge
    of the snapshot is the id of one of its nodes.  Otherwise it throws
    half-way: the working set, the edges and [this.graph] are already
    those of the new snapshot, while the simulation and the elements on
    screen are still the old ones. *)
Theorem render_completes_iff_endpoints_known (g : snapshot) (st : state) :
  (snd (render phyllotaxis g st) = Normal <-> endpoints_known g)
  /\ (~ endpoints_known g ->
      let st' := fst (render phyllotaxis g st) in
      snd (render phyllotaxis g st) = Thrown
      /\ graph st' = Some g
      /\ map payload (nodes st') = map payload (snap_nodes g)
      /\ sim st' = sim st
      /\ nodeElements st' = nodeElements st
      /\ linkElements st' = linkElements st
      /\ labelElements st' = labelElements st).
Proof.
  split; [apply render_completes_iff|].
  intros Hn st'.
  assert (Hc : snd (render phyllotaxis g st) = Thrown).
  { destruct (snd (render phyllotaxis g st)) eqn:E; [|reflexivity].
    apply render_completes_iff in E. contradiction. }
  split; [exact Hc|].
  destruct (render_keeps_payload_and_places_nodes g st)
    as (Hp & _ & _ & Hg & _).
  split; [exact Hg|]. split; [exact Hp|].
  unfold st'. unfold render in *.
  destruct (resolve_all _ _); [discriminate Hc|]. simpl. repeat split.
Qed.
End IngestFacts.

Section IngestFailure.
Import JS KnowledgeGraph.

(** A snapshot whose only edge points to a note it does not contain:
    the ingest throws, and the instance that was showing the two-node
    example still shows its two groups. *)
Lemma render_completes_iff_endpoints_known_witness :
  ~ endpoints_known Sample.dangling
  /\ snd (render Sample.origin Sample.dangling (Sample.after Sample.pair))
     = Thrown
  /\ nodeElements (fst (render Sample.origin Sample.dangling
                          (Sample.after Sample.pair)))
     = nodeElements (Sample.after Sample.pair).
Proof.
  assert (Hn : ~ endpoints_known Sample.dangling).
  { intros H. destruct (H (Sample.edge "A" "Z") (or_introl eq_refl))
      as [_ (n & [<-|[]] & Hid)]. discriminate Hid. }
  split; [exact Hn|].
  destruct (render_completes_iff_endpoints_known Sample.origin
              Sample.dangling (Sample.after Sample.pair)) as [_ H].
  destruct (H Hn) as (Hc & _ & _ & _ & He & _).
  split; [exact Hc|exact He].
Defined.
End IngestFailure.

(** ** The keyed join *)
Section JoinFacts.
Import JS KnowledgeGraph.
Context {D E : Type}.
Variable key_of_element : E -> string.
Variable key_of_datum : D -> string.
Variable rebind : D -> E -> E.
Variable create : D -> E.

Lemma index_elements_keeps (els : list E) (m : gmap string E)
  (k : string) (e : E) :
  m !! k = Some e -> index_elements key_of_element els m !! k = Some e.
Proof.
  revert m. induction els as [|a els IH]; intros m Hm; simpl; [exact Hm|].
  apply IH. destruct (m !! key_of_element a) eqn:Ea; [exact Hm|].
  rewrite lookup_insert_ne; [exact Hm|]. intros Heq. congruence.
Qed.

Lemma index_elements_origin (els : list E) (m : gmap string E)
  (k : string) (e : E) :
  index_elements key_of_element els m !! k = Some e ->
  m !! k = Some e \/ (In e els /\ key_of_element e = k).
Proof.
  revert m. induction els as [|a els IH]; intros m H; simpl in *; [auto|].
  apply IH in H. destruct H as [H|[Hin Hk]]; [|right; auto].
  destruct (m !! key_of_element a) eqn:Ea; [auto|].
  destruct (decide (key_of_element a = k)) as [Heq|Hne].
  - rewrite Heq, lookup_insert_eq in H. injection H as <-. right. auto.
  - rewrite lookup_insert_ne in H by exact Hne. auto.
Qed.

Lemma index_elements_distinct (els : list E) (m : gmap string E) :
  NoDup (map key_of_element els) ->
  (forall e, In e els -> m !! key_of_element e = None) ->
  forall e, In e els ->
    index_elements key_of_element els m !! key_of_element e = Some e.
Proof.
  revert m. induction els as [|a els IH]; intros m Hnd Hm e He; simpl.
  - destruct He.
  - apply NoDup_cons in Hnd. destruct Hnd as [Ha Hnd].
    rewrite (Hm a (or_introl eq_refl)).
    destruct He as [->|He].
    + apply index_elements_keeps. apply lookup_insert_eq.
    + apply IH; [exact Hnd| |exact He].
      intros e' He'. rewrite lookup_insert_ne.
      * apply Hm. now right.
      * intros Heq. apply Ha. rewrite Heq.
        apply list_elem_of_In, in_map, He'.
Qed.

Lemma bind_length (avail : gmap string E) (data : list D) :
  length (bind key_of_datum rebind create avail data) = length data.
Proof.
  revert avail. induction data as [|d data IH]; intros avail; simpl;
    [reflexivity|].
  destruct (avail !! key_of_datum d); simpl; now rewrite IH.
Qed.

Lemma bind_data {A : Type} (datum : E -> A) (proj : D -> A)
  (avail : gmap string E) (data : list D) :
  (forall d e, datum (rebind d e) = proj d) ->
  (forall d, datum (create d) = proj d) ->
  map datum (bind key_of_datum rebind create avail data) = map proj data.
Proof.
  intros Hr Hc. revert avail.
  induction data as [|d data IH]; intros avail; simpl; [reflexivity|].
  destruct (avail !! key_of_datum d); simpl; rewrite ?Hr, ?Hc, IH;
    reflexivity.
Qed.

Lemma bind_origin (avail : gmap string E) (data : list D) (x : E) :
  In x (bind key_of_datum rebind create avail data) ->
  (exists d, In d data /\ x = create d)
  \/ (exists d e, In d data /\ avail !! key_of_datum d = Some e
                  /\ x = rebind d e).
Proof.
  clear key_of_element.
  revert avail. induction data as [|d data IH]; intros avail; simpl;
    [tauto|].
  destruct (avail !! key_of_datum d) as [e|] eqn:Ea; simpl.
  - intros [<-|Hin]; [right; exists d, e; auto|].
    apply IH in Hin. destruct Hin as [(d' & Hd & ->)|(d' & e' & Hd & Hl & ->)].
    + left. exists d'. auto.
    + right. exists d', e'. split; [auto|]. split; [|reflexivity].
      apply lookup_delete_Some in Hl. tauto.
  - intros [<-|Hin]; [left; exists d; auto|].
    apply IH in Hin. destruct Hin as [(d' & Hd & ->)|(d' & e' & Hd & Hl & ->)].
    + left. exists d'. auto.
    + right. exists d', e'. auto.
Qed.

Lemma bind_same_keys (els : list E) (data : list D)
  (avail : gmap string E) :
  map key_of_element els = map key_of_datum data ->
  NoDup (map key_of_datum data) ->
  (forall e, In e els -> avail !! key_of_element e = Some e) ->
  bind key_of_datum rebind create avail data = zip_with rebind data els.
Proof.
  revert els avail.
  induction data as [|d data IH]; intros [|e els] avail Hk Hnd Hav;
    simpl in *; try discriminate; [reflexivity|].
  injection Hk as Hke Hk. apply NoDup_cons in Hnd. destruct Hnd as [Hd Hnd].
  rewrite <- Hke, (Hav e (or_introl eq_refl)). f_equal.
  apply IH; [exact Hk|exact Hnd|].
  intros e' He'. rewrite lookup_delete_ne.
  - apply Hav. now right.
  - intros Heq. apply Hd. rewrite <- Hk, <- Hke, Heq.
    apply list_elem_of_In, in_map, He'.
Qed.

Lemma join_same_keys (els : list E) (data : list D) :
  map key_of_element els = map key_of_datum data ->
  NoDup (map key_of_datum data) ->
  join key_of_element key_of_datum rebind create els data
  = zip_with rebind data els.
Proof.
  intros Hk Hnd. unfold join. apply bind_same_keys; [exact Hk|exact Hnd|].
  apply index_elements_distinct.
  - rewrite Hk. exact Hnd.
  - intros e _. apply lookup_empty.
Qed.
End JoinFacts.

(** ** The elements an ingest leaves *)
Section ElementFacts.
Import JS KnowledgeGraph.
Variable phyllotaxis : nat -> Q * Q.

Lemma render_normal_elements (g : snapshot) (st : state) :
  snd (render phyllotaxis g st) = Normal ->
  let st' := fst (render phyllotaxis g st) in
  exists rls,
    resolve_all (node_by_id (nodes st')) (snap_edges g) = Some rls
    /\ nodeElements st'
       = Some (renderNodes (default [] (nodeElements st)) (nodes st'))
    /\ labelElements st'
       = Some (renderLabels (default [] (labelElements st)) (nodes st'))
    /\ linkElements st'
       = Some (renderLinks (default [] (linkElements st)) rls).
Proof.
  intros Hc st'. unfold st'. unfold render in *.
  rewrite copy_edges_id in *.
  destruct (resolve_all _ _) as [rls|] eqn:Er; [|discriminate Hc].
  simpl. exists rls. rewrite Er. repeat split.
Qed.

Lemma node_by_id_acc_key (ns : list node) (m : gmap string node)
  (k : string) (n : node) :
  (forall k' n', m !! k' = Some n' -> node_id n' = k') ->
  foldl (fun m n => <[node_id n := n]> m) m ns !! k = Some n ->
  node_id n = k.
Proof.
  revert m. induction ns as [|a ns IH]; intros m Hm H; simpl in *.
  - eauto.
  - apply IH in H; [exact H|]. intros k' n' Hl.
    destruct (decide (node_id a = k')) as [Heq|Hne].
    + rewrite Heq, lookup_insert_eq in Hl. injection Hl as <-. exact Heq.
    + rewrite lookup_insert_ne in Hl by exact Hne. eauto.
Qed.

Lemma node_by_id_key (ns : list node) (k : string) (n : node) :
  node_by_id ns !! k = Some n -> node_id n = k.
Proof.
  apply node_by_id_acc_key. intros k' n' H.
  rewrite lookup_empty in H. discriminate H.
Qed.

Lemma resolve_all_ends (ns : list node) (ls : list link)
  (rls : list rlink) :
  resolve_all (node_by_id ns) ls = Some rls ->
  map (fun r => (node_id (rsource r), node_id (rtarget r))) rls
  = map (fun e => (source e, target e)) ls.
Proof.
  revert rls. induction ls as [|l ls IH]; intros rls H; simpl in *.
  - injection H as <-. reflexivity.
  - unfold resolve in H.
    destruct (node_by_id ns !! source l) as [s|] eqn:Es; [|discriminate H].
    destruct (node_by_id ns !! target l) as [t|] eqn:Et; [|discriminate H].
    destruct (resolve_all _ ls) as [rs|]; [|discriminate H].
    injection H as <-. simpl.
    rewrite (node_by_id_key _ _ _ Es), (node_by_id_key _ _ _ Et).
    f_equal. apply IH. reflexivity.
Qed.

Lemma renderNodes_data (old : list gnode) (ns : list node) :
  map g_datum (renderNodes old ns) = ns.
Proof.
  unfold renderNodes, join. rewrite map_map. simpl.
  rewrite (bind_data _ _ _ g_datum (fun d => d)); [apply map_id| |];
    reflexivity.
Qed.

Lemma renderNodes_last_circle (old : list gnode) (ns : list node)
  (g : gnode) :
  In g (renderNodes old ns) ->
  exists cs, circles g = cs ++ [baseline_circle (g_datum g)].
Proof.
  unfold renderNodes. intros H. apply in_map_iff in H.
  destruct H as (g0 & <- & _). simpl. eauto.
Qed.

(** X3.  When an ingest runs to its end, the elements on screen are
    those of the new working set and nothing else, whatever was on
    screen before: one group and one label per node, in the order of
    the nodes and bound to them, each label showing the node's label cut
    to 15 characters; one line per edge, in the order of the edges,
    joining the nodes its ends name, and not dimmed; and the last circle
    of every group is drawn in the baseline style of its node. *)
Theorem render_elements_mirror_snapshot (g : snapshot) (st : state) :
  snd (render phyllotaxis g st) = Normal ->
  let st' := fst (render phyllotaxis g st) in
  option_map (map g_datum) (nodeElements st') = Some (nodes st')
  /\ option_map (map t_datum) (labelElements st') = Some (nodes st')
  /\ option_map (map t_text) (labelElements st')
     = Some (map (fun n => truncateLabel (node_label n) 15) (nodes st'))
  /\ option_map
       (map (fun l => (node_id (rsource (l_datum l)),
                       node_id (rtarget (l_datum l)), l_dimmed l)))
       (linkElements st')
     = Some (map (fun e => (source e, target e, false)) (snap_edges g))
  /\ (forall gs g0, nodeElements st' = Some gs -> In g0 gs ->
        exists cs, circles g0 = cs ++ [baseline_circle (g_datum g0)]).
Proof.
  intros Hc st'.
  destruct (render_normal_elements g st Hc) as (rls & Hr & Hn & Hl & Hk).
  fold st' in Hr, Hn, Hl, Hk. rewrite Hn, Hl, Hk. simpl.
  split; [rewrite renderNodes_data; reflexivity|].
  split.
  { f_equal. unfold renderLabels, join.
    rewrite (bind_data _ _ _ t_datum (fun d => d)); [apply map_id| |];
      reflexivity. }
  split.
  { f_equal. unfold renderLabels, join.
    apply bind_data; reflexivity. }
  split.
  { f_equal. unfold renderLinks, join.
    rewrite (bind_data _ _ _
               (fun l => (node_id (rsource (l_datum l)),
                          node_id (rtarget (l_datum l)), l_dimmed l))
               (fun r => (node_id (rsource r), node_id (rtarget r), false)));
      [|reflexivity|reflexivity].
    pose proof (resolve_all_ends _ _ _ Hr) as He.
    apply (f_equal (map (fun p : string * string => (p, false)))) in He.
    rewrite !map_map in He. exact He. }
  intros gs g0 [= <-]. apply renderNodes_last_circle.
Qed.

Lemma rebind_same_datum (ns : list node) (gs : list gnode) :
  map g_datum gs = ns ->
  zip_with (fun d g => {| el_id := el_id g; g_datum := d;
                          circles := circles g; g_dimmed := g_dimmed g |})
           ns gs
  = gs.
Proof.
  revert ns. induction gs as [|g gs IH]; intros [|n ns] H; simpl in *;
    try discriminate; try reflexivity.
  injection H as <- H. rewrite (IH _ H). destruct g; reflexivity.
Qed.

(** X4.  Ingesting the same snapshot once more, when its node ids are
    distinct, keeps every group with all the circles it had and adds one
    more circle in baseline style to each: circles pile up, one per
    ingest, and what was drawn on the earlier circles (a search
    highlight, say) is still there underneath. *)
Theorem rerender_adds_one_circle (g : snapshot) (st : state) :
  NoDup (map node_id (snap_nodes g)) ->
  snd (render phyllotaxis g st) = Normal ->
  let st1 := fst (render phyllotaxis g st) in
  let st2 := fst (render phyllotaxis g st1) in
  snd (render phyllotaxis g st1) = Normal
  /\ nodeElements st2 = option_map (map append_circle) (nodeElements st1).
Proof.
  intros Hnd Hc st1 st2.
  assert (Hc2 : snd (render phyllotaxis g st1) = Normal).
  { apply (proj2 (render_completes_iff phyllotaxis g st1)).
    apply (proj1 (render_completes_iff phyllotaxis g st)). exact Hc. }
  split; [exact Hc2|].
  destruct (render_normal_elements g st Hc) as (_ & _ & Hn1 & _).
  destruct (render_normal_elements g st1 Hc2) as (_ & _ & Hn2 & _).
  fold st1 in Hn1. fold st2 in Hn2.
  assert (Hns : nodes st2 = nodes st1).
  { unfold st2, st1. rewrite !render_nodes. reflexivity. }
  rewrite Hn2, Hns, Hn1. simpl. f_equal.
  set (gs1 := renderNodes (default [] (nodeElements st)) (nodes st1)).
  assert (Hd : map g_datum gs1 = nodes st1) by apply renderNodes_data.
  unfold renderNodes at 1. f_equal.
  rewrite join_same_keys.
  - apply rebind_same_datum. exact Hd.
  - rewrite <- Hd. rewrite map_map. reflexivity.
  - unfold st1. rewrite render_nodes, working_nodes_ids. exact Hnd.
Qed.

End ElementFacts.

Section ElementExamples.
Import JS KnowledgeGraph.

(** The four-node example, ingested into an instance that was showing
    the two-node example. *)
Lemma render_elements_mirror_snapshot_witness :
  let st := Sample.after Sample.pair in
  let st' := fst (render Sample.origin Sample.abcd st) in
  snd (render Sample.origin Sample.abcd st) = Normal
  /\ option_map (map g_datum) (nodeElements st') = Some (nodes st')
  /\ option_map (@length gnode) (nodeElements st') = Some 4%nat.
Proof.
  intros st st'.
  assert (Hc : snd (render Sample.origin Sample.abcd st) = Normal)
    by (vm_compute; reflexivity).
  split; [exact Hc|].
  destruct (render_elements_mirror_snapshot Sample.origin Sample.abcd st Hc)
    as (Hg & _).
  split; [exact Hg|]. vm_compute. reflexivity.
Defined.

Lemma rerender_adds_one_circle_witness :
  let st1 := Sample.after Sample.pair in
  let st2 := fst (render Sample.origin Sample.pair st1) in
  NoDup (map node_id (snap_nodes Sample.pair))
  /\ snd (render Sample.origin Sample.pair Sample.fresh) = Normal
  /\ nodeElements st2 = option_map (map append_circle) (nodeElements st1).
Proof.
  intros st1 st2.
  assert (Hnd : NoDup (map node_id (snap_nodes Sample.pair))).
  { apply NoDup_ListNoDup. repeat constructor; simpl; intuition discriminate. }
  assert (Hc : snd (render Sample.origin Sample.pair Sample.fresh) = Normal)
    by (vm_compute; reflexivity).
  split; [exact Hnd|]. split; [exact Hc|].
  destruct (rerender_adds_one_circle Sample.origin Sample.pair Sample.fresh
              Hnd Hc)
    as [_ H].
  exact H.
Defined.
End ElementExamples.

(** ** Search highlight: which circles it touches *)
Section HighlightFacts.
Import JS KnowledgeGraph.

Lemma same_group_refl (g : gnode) : same_group g g.
Proof. repeat split. Qed.

Lemma same_group_trans (a b c : gnode) :
  same_group a b -> same_group b c -> same_group a c.
Proof.
  intros (H1 & H2 & H3 & H4) (H5 & H6 & H7 & H8).
  repeat split; congruence.
Qed.

Lemma emphasize_group_same (g : gnode) : same_group g (emphasize_group g).
Proof.
  unfold emphasize_group. destruct (circles g) eqn:E; repeat split.
  simpl. rewrite E. reflexivity.
Qed.

Lemma reset_group_same (g : gnode) : same_group g (reset_group g).
Proof. repeat split. simpl. apply length_map. Qed.

Lemma emphasize_first_same (sel : string) (gs : list gnode) :
  Forall2 same_group gs (emphasize_first sel gs).
Proof.
  induction gs as [|g gs IH]; simpl; [constructor|].
  destruct (String.eqb (el_id g) sel).
  - constructor; [apply emphasize_group_same|].
    apply Forall2_same_length_lookup_2; [reflexivity|].
    intros i a b Ha Hb. rewrite Ha in Hb. injection Hb as <-.
    apply same_group_refl.
  - constructor; [apply same_group_refl|exact IH].
Qed.

Lemma Forall2_same_group_trans (a b c : list gnode) :
  Forall2 same_group a b -> Forall2 same_group b c ->
  Forall2 same_group a c.
Proof.
  intros H. revert c. induction H as [|x y l l' Hxy _ IH]; intros c Hc.
  - inversion Hc. constructor.
  - inversion Hc as [|y' z l'' l''' Hyz Hrest]; subst.
    constructor; [eapply same_group_trans; eassumption|auto].
Qed.

Lemma highlight_groups_same (ids : list string) (gs : list gnode) :
  Forall2 same_group gs (highlight_groups ids gs).
Proof.
  unfold highlight_groups.
  assert (H0 : Forall2 same_group gs (map reset_group gs)).
  { induction gs; simpl; constructor; [apply reset_group_same|assumption]. }
  revert H0. generalize (map reset_group gs) as acc.
  induction ids as [|i ids IH]; intros acc Hacc; simpl; [exact Hacc|].
  apply IH. eapply Forall2_same_group_trans; [exact Hacc|].
  apply emphasize_first_same.
Qed.

Lemma well_tagged_same (gs gs' : list gnode) :
  Forall2 same_group gs gs' -> well_tagged gs -> well_tagged gs'.
Proof.
  intros H Hw g' Hg'. apply list_elem_of_In in Hg'.
  destruct (proj1 (list_elem_of_lookup _ _) Hg') as [i Hi].
  destruct (Forall2_lookup_r _ _ _ _ _ H Hi) as (g & Hgi & Hs).
  destruct Hs as (H1 & H2 & _ & H4).
  destruct (Hw g) as [Hid Hc].
  { apply list_elem_of_In. eapply list_elem_of_lookup_2. exact Hgi. }
  rewrite H1, H2. split; [exact Hid|].
  intros Hnil. rewrite Hnil in H4. simpl in H4.
  destruct (circles g); [congruence|discriminate H4].
Qed.

Lemma dim_groups_same (cur : option string) (gs : list gnode) :
  well_tagged gs -> well_tagged (map (dim_gnode cur) gs).
Proof.
  intros Hw g Hg. apply in_map_iff in Hg. destruct Hg as (g0 & <- & Hin).
  simpl. apply Hw. exact Hin.
Qed.

Lemma renderNodes_well_tagged (old : list gnode) (ns : list node) :
  well_tagged old -> well_tagged (renderNodes old ns).
Proof.
  intros Hw g Hg. unfold renderNodes in Hg. apply in_map_iff in Hg.
  destruct Hg as (g0 & <- & Hin). simpl.
  split;
    [|intros Hnil; apply app_eq_nil in Hnil; destruct Hnil as [_ Hnil];
      discriminate Hnil].
  unfold join in Hin. apply bind_origin in Hin.
  destruct Hin as [(d & _ & ->)|(d & e & _ & Hl & ->)]; [reflexivity|].
  simpl. apply (index_elements_origin (fun g => node_id (g_datum g))) in Hl.
  destruct Hl as [Hl|[He Hk]].
  - rewrite lookup_empty in Hl. discriminate Hl.
  - rewrite <- Hk. apply Hw. exact He.
Qed.

(** X5.  In every state an instance can reach, each node group on
    screen carries the element id ["node-"] followed by the id of the
    node it is bound to, and holds at least one circle: this is what
    lets [highlightSearchResults] find the circle of a node by its id. *)
Theorem reachable_groups_well_tagged (phyllotaxis : nat -> Q * Q)
  (physics : list node -> nat -> Q * Q) (st : state) (gs : list gnode) :
  reachable phyllotaxis physics st ->
  nodeElements st = Some gs ->
  well_tagged gs.
Proof.
  intros Hr. revert gs.
  induction Hr as [w h|st st' Hr IH Hs]; intros gs Hgs.
  - discriminate Hgs.
  - destruct Hs; simpl in Hgs.
    + unfold render in Hgs. destruct (resolve_all _ _); simpl in Hgs.
      * injection Hgs as <-. apply renderNodes_well_tagged.
        destruct (nodeElements st) as [old|]; simpl; [auto|].
        intros ? [].
      * auto.
    + destruct (nodeElements st) as [old|]; [|discriminate Hgs].
      injection Hgs as <-. apply dim_groups_same. auto.
    + destruct (nodeElements st) as [old|]; [|discriminate Hgs].
      injection Hgs as <-. apply dim_groups_same. auto.
    + destruct (nodeElements st) as [old|]; [|discriminate Hgs].
      injection Hgs as <-.
      apply (well_tagged_same old); [apply highlight_groups_same|auto].
    + unfold onWindowResize in Hgs.
      destruct (_ || _); simpl in Hgs; auto.
    + unfold dragStart in Hgs. destruct a; simpl in Hgs; auto.
    + auto.
    + unfold dragEnd in Hgs. destruct a; simpl in Hgs; auto.
    + auto.
Qed.

Lemma emphasize_group_twice (g : gnode) :
  emphasize_group (emphasize_group g) = emphasize_group g.
Proof.
  unfold emphasize_group. destruct (circles g) as [|c cs] eqn:E.
  - rewrite E. reflexivity.
  - reflexivity.
Qed.

Lemma reset_group_twice (g : gnode) :
  reset_group (reset_group g) = reset_group g.
Proof.
  unfold reset_group. simpl. rewrite map_map. reflexivity.
Qed.

Lemma reset_emphasize_reset (g : gnode) :
  emphasize_group (reset_group (emphasize_group (reset_group g)))
  = emphasize_group (reset_group g).
Proof.
  unfold emphasize_group, reset_group. simpl.
  destruct (circles g) as [|c cs]; simpl; [reflexivity|].
  rewrite map_map. reflexivity.
Qed.

Lemma emphasize_group_el_id (g : gnode) :
  el_id (emphasize_group g) = el_id g.
Proof. apply emphasize_group_same. Qed.

Lemma emphasize_group_datum (g : gnode) :
  g_datum (emphasize_group g) = g_datum g.
Proof. apply emphasize_group_same. Qed.

Lemma mark_selected_el_id (sels : list string) (g : gnode) :
  el_id (mark_selected sels g) = el_id g.
Proof.
  unfold mark_selected. destruct (selected sels g);
    [apply (emphasize_group_el_id (reset_group g))|reflexivity].
Qed.

Lemma emphasize_first_marked (sel : string) (sels : list string)
  (gs : list gnode) :
  NoDup (map el_id gs) ->
  emphasize_first sel (map (mark_selected sels) gs)
  = map (mark_selected (sels ++ [sel])) gs.
Proof.
  induction gs as [|g gs IH]; intros Hnd; simpl; [reflexivity|].
  apply NoDup_cons in Hnd. destruct Hnd as [Hg Hnd].
  rewrite mark_selected_el_id.
  assert (Hsel : selected (sels ++ [sel]) g
                 = selected sels g || String.eqb (el_id g) sel).
  { unfold selected. rewrite existsb_app. simpl.
    rewrite orb_false_r. reflexivity. }
  destruct (String.eqb_spec (el_id g) sel) as [Heq|Hne].
  - f_equal.
    + unfold mark_selected. rewrite Hsel, orb_true_r.
      destruct (selected sels g); [apply emphasize_group_twice|reflexivity].
    + apply map_ext_in. intros g' Hg'. unfold mark_selected, selected.
      rewrite existsb_app. simpl.
      destruct (String.eqb_spec (el_id g') sel) as [Heq'|_].
      * exfalso. apply Hg. rewrite Heq, <- Heq'.
        apply list_elem_of_In, in_map, Hg'.
      * rewrite orb_false_r. reflexivity.
  - f_equal; [|apply IH; exact Hnd].
    unfold mark_selected. rewrite Hsel, orb_false_r. reflexivity.
Qed.

Lemma foldl_emphasize_marked (ids done : list string) (gs : list gnode) :
  NoDup (map el_id gs) ->
  foldl (fun gs nodeId => emphasize_first ("node-" ++ nodeId) gs)
        (map (mark_selected (map (String.append "node-") done)) gs) ids
  = map (mark_selected (map (String.append "node-") (done ++ ids))) gs.
Proof.
  intros Hnd. revert done.
  induction ids as [|i ids IH]; intros done; simpl.
  - rewrite app_nil_r. reflexivity.
  - rewrite emphasize_first_marked by exact Hnd.
    replace (map (String.append "node-") done ++ ["node-" ++ i]%string)
      with (map (String.append "node-") (done ++ [i]))
      by (rewrite map_app; reflexivity).
    rewrite IH, <- app_assoc. reflexivity.
Qed.

Lemma highlight_groups_marked (ids : list string) (gs : list gnode) :
  NoDup (map el_id gs) ->
  highlight_groups ids gs
  = map (mark_selected (map (String.append "node-") ids)) gs.
Proof.
  intros Hnd. unfold highlight_groups.
  exact (foldl_emphasize_marked ids [] gs Hnd).
Qed.

Lemma selected_listed (ids : list string) (g : gnode) :
  el_id g = ("node-" ++ node_id (g_datum g))%string ->
  selected (map (String.append "node-") ids) g = listed ids g.
Proof.
  intros Hid. unfold selected, listed. rewrite Hid.
  induction ids as [|i ids IH]; cbn [map existsb]; [reflexivity|].
  rewrite IH. reflexivity.
Qed.

Lemma tagged_ids_distinct (gs : list gnode) :
  well_tagged gs ->
  NoDup (map (fun g => node_id (g_datum g)) gs) ->
  NoDup (map el_id gs).
Proof.
  intros Hw Hnd.
  assert (He : map el_id gs
               = map (String.append "node-")
                     (map (fun g => node_id (g_datum g)) gs)).
  { rewrite map_map. apply map_ext_in. intros g Hg. apply Hw, Hg. }
  rewrite He. apply NoDup_fmap_2; [|exact Hnd].
  intros a b Hab. simpl in Hab. injection Hab as Hab. exact Hab.
Qed.

Lemma highlight_groups_mark (ids : list string) (gs : list gnode) :
  well_tagged gs ->
  NoDup (map (fun g => node_id (g_datum g)) gs) ->
  highlight_groups ids gs = map (mark ids) gs.
Proof.
  intros Hw Hnd.
  rewrite highlight_groups_marked by (apply tagged_ids_distinct; assumption).
  apply map_ext_in. intros g Hg. unfold mark_selected, mark.
  rewrite selected_listed by (apply Hw, Hg). reflexivity.
Qed.


(** X7.  On such a screen, applying the same highlight twice is the
    same as applying it once. *)
Theorem highlightSearchResults_idempotent (nodeIds : list string)
  (st : state) (gs : list gnode) :
  nodeElements st = Some gs ->
  well_tagged gs ->
  NoDup (map (fun g => node_id (g_datum g)) gs) ->
  highlightSearchResults nodeIds (highlightSearchResults nodeIds st)
  = highlightSearchResults nodeIds st.
Proof.
  intros Hgs Hw Hnd.
  assert (H1 : highlightSearchResults nodeIds st
               = with_elements (linkElements st)
                   (Some (map (mark nodeIds) gs)) (labelElements st) st).
  { unfold highlightSearchResults. rewrite Hgs. simpl.
    rewrite highlight_groups_mark by assumption. reflexivity. }
  rewrite H1. unfold highlightSearchResults, with_elements. simpl.
  f_equal. f_equal.
  rewrite highlight_groups_mark.
  - rewrite map_map. apply map_ext_in. intros g _.
    unfold mark, listed.
    destruct (existsb (String.eqb (node_id (g_datum g))) nodeIds) eqn:E.
    + assert (Hd : g_datum (emphasize_group (reset_group g)) = g_datum g)
        by apply (emphasize_group_datum (reset_group g)).
      rewrite Hd, E. apply reset_emphasize_reset.
    + simpl. rewrite E. apply reset_group_twice.
  - apply (well_tagged_same gs); [|exact Hw].
    rewrite <- (highlight_groups_mark nodeIds gs) by assumption.
    apply highlight_groups_same.
  - rewrite map_map.
    erewrite map_ext_in; [exact Hnd|]. intros g _.
    unfold mark. destruct (listed nodeIds g);
      [apply f_equal, (emphasize_group_datum (reset_group g))|reflexivity].
Qed.
End HighlightFacts.

Section HighlightExamples.
Import JS KnowledgeGraph.

(** The screen of the two-node example: tagged groups, distinct ids. *)
Lemma pair_screen :
  let gs := default [] (nodeElements (Sample.after Sample.pair)) in
  nodeElements (Sample.after Sample.pair) = Some gs
  /\ well_tagged gs
  /\ NoDup (map (fun g => node_id (g_datum g)) gs).
Proof.
  intros gs. split; [reflexivity|]. split.
  - intros g [<-|[<-|[]]]; (split; [reflexivity|discriminate]).
  - apply NoDup_ListNoDup. vm_compute.
    repeat constructor; simpl; intuition discriminate.
Qed.

Lemma reachable_groups_well_tagged_witness :
  let st := highlightSearchResults ["A"] (Sample.after Sample.pair) in
  let gs := default [] (nodeElements st) in
  reachable Sample.origin (fun _ _ => (0, 0)%Q) st
  /\ nodeElements st = Some gs
  /\ well_tagged gs.
Proof.
  intros st gs.
  assert (Hr : reachable Sample.origin (fun _ _ => (0, 0)%Q) st).
  { unfold st, Sample.after, Sample.fresh.
    repeat (eapply reachable_step; [|constructor]).
    apply reachable_constructed. }
  assert (Hgs : nodeElements st = Some gs) by reflexivity.
  split; [exact Hr|]. split; [exact Hgs|].
  exact (reachable_groups_well_tagged _ _ st gs Hr Hgs).
Defined.


Lemma highlightSearchResults_idempotent_witness :
  let st := Sample.after Sample.pair in
  let gs := default [] (nodeElements st) in
  nodeElements st = Some gs
  /\ well_tagged gs
  /\ NoDup (map (fun g => node_id (g_datum g)) gs)
  /\ highlightSearchResults ["A"] (highlightSearchResults ["A"] st)
     = highlightSearchResults ["A"] st.
Proof.
  intros st gs. destruct pair_screen as (Hgs & Hw & Hnd).
  fold st gs in Hgs, Hw, Hnd.
  split; [exact Hgs|]. split; [exact Hw|]. split; [exact Hnd|].
  exact (highlightSearchResults_idempotent ["A"] st gs Hgs Hw Hnd).
Defined.
End HighlightExamples.

(** ** Filter, highlight and resize: how the calls compose *)
Section Composition.
Import JS KnowledgeGraph.

Lemma emphasize_group_dim (cur : option string) (g : gnode) :
  emphasize_group (dim_gnode cur g) = dim_gnode cur (emphasize_group g).
Proof.
  unfold emphasize_group, dim_gnode. simpl.
  destruct (circles g) as [|c cs] eqn:E; simpl; rewrite ?E; reflexivity.
Qed.

Lemma emphasize_first_dim (cur : option string) (sel : string)
  (gs : list gnode) :
  emphasize_first sel (map (dim_gnode cur) gs)
  = map (dim_gnode cur) (emphasize_first sel gs).
Proof.
  induction gs as [|g gs IH]; simpl; [reflexivity|].
  destruct (String.eqb (el_id g) sel); simpl.
  - rewrite emphasize_group_dim. reflexivity.
  - rewrite IH. reflexivity.
Qed.

Lemma highlight_groups_dim (cur : option string) (ids : list string)
  (gs : list gnode) :
  highlight_groups ids (map (dim_gnode cur) gs)
  = map (dim_gnode cur) (highlight_groups ids gs).
Proof.
  unfold highlight_groups.
  assert (H0 : map reset_group (map (dim_gnode cur) gs)
               = map (dim_gnode cur) (map reset_group gs)).
  { rewrite !map_map. reflexivity. }
  rewrite H0. generalize (map reset_group gs) as acc.
  induction ids as [|i ids IH]; intros acc; simpl; [reflexivity|].
  rewrite emphasize_first_dim. apply IH.
Qed.

(** X8.  The theme filter and the search highlight do not interfere:
    filtering and then highlighting gives the same instance as
    highlighting and then filtering.  The filter only sets the [dimmed]
    class, the highlight only sets attributes of circles. *)
Theorem highlight_commutes_with_filter (theme : option string)
  (nodeIds : list string) (st : state) :
  highlightSearchResults nodeIds (filterByTheme theme st)
  = filterByTheme theme (highlightSearchResults nodeIds st).
Proof.
  unfold highlightSearchResults, filterByTheme, updateHighlight,
    with_elements, with_theme. simpl.
  destruct (nodeElements st) as [gs|]; simpl; [|reflexivity].
  rewrite highlight_groups_dim. reflexivity.
Qed.

(** X9.  The dimming on screen is that of the latest filter call:
    filtering by one theme and then by another is the same as filtering
    by the other alone, so filtering is idempotent and an earlier filter
    leaves no trace. *)
Theorem filterByTheme_latest_wins (t1 t2 : option string) (st : state) :
  filterByTheme t2 (filterByTheme t1 st) = filterByTheme t2 st.
Proof.
  unfold filterByTheme, updateHighlight, with_elements, with_theme.
  simpl.
  destruct (linkElements st), (nodeElements st), (labelElements st);
    simpl; rewrite ?dim_gnode_twice, ?dim_text_twice, ?dim_line_twice;
    reflexivity.
Qed.

(** X10.  A resize of the window reaches [onWindowResize] through two
    listeners.  The second call always finds the size the first one
    stored and does nothing: the pair acts as a single call, and the
    simulation is restarted at most once per event. *)
Theorem resize_event_acts_once (newWidth newHeight : Z) (st : state) :
  resize_event newWidth newHeight st
  = onWindowResize newWidth newHeight st
  /\ (option_map restarts (sim (resize_event newWidth newHeight st))
      = option_map restarts (sim st)
      \/ option_map restarts (sim (resize_event newWidth newHeight st))
         = option_map (fun s => S (restarts s)) (sim st)).
Proof.
  assert (H : resize_event newWidth newHeight st
              = onWindowResize newWidth newHeight st).
  { unfold resize_event, onWindowResize.
    destruct (negb (newWidth =? width st)%Z
              || negb (newHeight =? height st)%Z) eqn:E; simpl.
    - rewrite !Z.eqb_refl. reflexivity.
    - rewrite E. reflexivity. }
  split; [exact H|]. rewrite H. unfold onWindowResize.
  destruct (_ || _); simpl; [right|left; reflexivity].
  destruct (sim st); reflexivity.
Qed.
End Composition.

(** ** Radius: where it saturates *)
Section RadiusFacts.
Import KnowledgeGraph.
Local Open Scope Q_scope.

Lemma radius_expr_strict (z1 z2 : Z) :
  (z1 < z2)%Z ->
  baseRadius + inject_Z z1 * (maxRadius - baseRadius) / 15
  < baseRadius + inject_Z z2 * (maxRadius - baseRadius) / 15.
Proof.
  intros H. unfold baseRadius, maxRadius.
  unfold Qlt, Qplus, Qmult, Qdiv, Qminus, Qinv, Qopp, inject_Z.
  simpl. lia.
Qed.

(** X11.  The radius is 6 for a node without connections, grows
    strictly with every connection up to 15, and is 25 for every node
    with 15 connections or more. *)
Theorem getNodeRadius_saturates_at_15 (n m : node) :
  (connection_count n = 0%nat -> getNodeRadius n == baseRadius)
  /\ ((15 <= connection_count n)%nat -> getNodeRadius n == maxRadius)
  /\ ((connection_count n < connection_count m)%nat ->
      (connection_count m <= 15)%nat ->
      getNodeRadius n < getNodeRadius m).
Proof.
  unfold getNodeRadius. repeat split.
  - intros ->. vm_compute. reflexivity.
  - intros H. rewrite Nat.min_r by exact H. vm_compute. reflexivity.
  - intros H1 H2. apply radius_expr_strict. lia.
Qed.

Lemma getNodeRadius_saturates_at_15_witness :
  let n := set_connections 3 (Sample.plain "A" "ml") in
  let m := set_connections 4 (Sample.plain "B" "ml") in
  let big := set_connections 40 (Sample.plain "C" "ml") in
  (connection_count n < connection_count m)%nat
  /\ (connection_count m <= 15)%nat
  /\ getNodeRadius n < getNodeRadius m
  /\ (15 <= connection_count big)%nat
  /\ getNodeRadius big == maxRadius.
Proof.
  intros n m big.
  assert (H1 : (connection_count n < connection_count m)%nat)
    by (vm_compute; lia).
  assert (H2 : (connection_count m <= 15)%nat) by (vm_compute; lia).
  assert (H3 : (15 <= connection_count big)%nat) by (vm_compute; lia).
  split; [exact H1|]. split; [exact H2|].
  destruct (getNodeRadius_saturates_at_15 n m) as (_ & _ & Hlt).
  split; [exact (Hlt H1 H2)|]. split; [exact H3|].
  destruct (getNodeRadius_saturates_at_15 big m) as (_ & Hmax & _).
  exact (Hmax H3).
Defined.

Lemma clamp_mono (s1 s2 : Q) :
  s1 <= s2 -> Qmax (1 # 2) (Qmin 1 s1) <= Qmax (1 # 2) (Qmin 1 s2).
Proof.
  intros H. apply Q.max_le_compat_l. apply Q.min_le_compat_l. exact H.
Qed.

Lemma clamp_half : Qmax (1 # 2) (Qmin 1 (1 # 2)) <= 1 # 2.
Proof.
  apply Q.max_lub; [apply Qle_refl|apply Q.le_min_r].
Qed.

Lemma legacy_score_mono (n m : node) (s1 s2 : Q) :
  novelty_score n = Some s1 -> novelty_score m = Some s2 ->
  s1 <= s2 -> legacy_score n <= legacy_score m.
Proof.
  intros H1 H2 Hle. unfold legacy_score. rewrite H1, H2.
  destruct (Qeq_bool s1 0) eqn:E1; destruct (Qeq_bool s2 0) eqn:E2.
  - apply Qle_refl.
  - eapply Qle_trans; [apply clamp_half|apply Q.le_max_l].
  - apply clamp_mono. apply Qeq_bool_iff in E2.
    eapply Qle_trans; [exact Hle|]. rewrite E2. discriminate.
  - apply clamp_mono. exact Hle.
Qed.

(** X12.  The earlier sizing by novelty score gives a radius between 5
    and 15; it is 5 when the score is missing; and a higher score never
    gives a smaller radius. *)
Theorem getNodeRadius_legacy_bounded_monotone (n m : node) :
  (5 <= getNodeRadius_legacy n /\ getNodeRadius_legacy n <= 15)
  /\ (novelty_score n = None -> getNodeRadius_legacy n == 5)
  /\ (forall s1 s2,
        novelty_score n = Some s1 -> novelty_score m = Some s2 ->
        s1 <= s2 ->
        getNodeRadius_legacy n <= getNodeRadius_legacy m).
Proof.
  split; [apply legacy_radius_bounds|]. split.
  - intros H. unfold getNodeRadius_legacy, legacy_score. rewrite H.
    vm_compute. reflexivity.
  - intros s1 s2 H1 H2 Hle. unfold getNodeRadius_legacy.
    apply Qplus_le_r. apply Qmult_le_compat_r; [|discriminate].
    unfold Qminus. apply Qplus_le_l.
    exact (legacy_score_mono n m s1 s2 H1 H2 Hle).
Qed.
End RadiusFacts.

(** ** Labels *)
Section LabelFacts.
Import KnowledgeGraph.

Lemma string_length_append (a b : string) :
  String.length (a ++ b) = String.length a + String.length b.
Proof. induction a as [|c a IH]; simpl; [reflexivity|now rewrite IH]. Qed.

Lemma substring_0_length (n : nat) (s : string) :
  n <= String.length s -> String.length (String.substring 0 n s) = n.
Proof.
  revert s. induction n as [|n IH]; intros s H.
  - destruct s; reflexivity.
  - destruct s as [|c s]; simpl in *; [lia|].
    rewrite IH by lia. reflexivity.
Qed.

Lemma substring_0_prefix (n : nat) (s : string) :
  exists rest, s = (String.substring 0 n s ++ rest)%string.
Proof.
  revert s. induction n as [|n IH]; intros s.
  - exists s. destruct s; reflexivity.
  - destruct s as [|c s]; simpl.
    + exists "". reflexivity.
    + destruct (IH s) as [rest Hr]. exists rest.
      change (String c s
              = String c (String.substring 0 n s ++ rest)%string).
      f_equal. exact Hr.
Qed.

(** X13.  [truncateLabel] returns a text of at most [length] + 3
    characters: a text that fits is returned as it is, a longer one is
    cut to its first [length] characters followed by three dots. *)
Theorem truncateLabel_bounds (s : string) (n : nat) :
  String.length (truncateLabel s n) <= n + 3
  /\ (String.length s <= n -> truncateLabel s n = s)
  /\ (n < String.length s ->
      truncateLabel s n = (String.substring 0 n s ++ "...")%string
      /\ String.length (truncateLabel s n) = n + 3
      /\ exists rest, s = (String.substring 0 n s ++ rest)%string).
Proof.
  unfold truncateLabel.
  destruct (Nat.leb_spec (String.length s) n) as [Hle|Hlt].
  - split; [lia|]. split; [reflexivity|lia].
  - assert (Hlen : String.length (String.substring 0 n s ++ "...") = n + 3).
    { rewrite string_length_append, substring_0_length by lia.
      reflexivity. }
    split; [lia|]. split; [lia|]. intros _.
    split; [reflexivity|]. split; [exact Hlen|].
    apply substring_0_prefix.
Qed.

Lemma truncateLabel_bounds_witness :
  15 < String.length "Model serving architectures"
  /\ truncateLabel "Model serving architectures" 15 = "Model serving a..."
  /\ String.length "short" <= 15
  /\ truncateLabel "short" 15 = "short".
Proof.
  assert (H1 : 15 < String.length "Model serving architectures")
    by (vm_compute; lia).
  assert (H2 : String.length "short" <= 15) by (vm_compute; lia).
  split; [exact H1|].
  destruct (truncateLabel_bounds "Model serving architectures" 15)
    as (_ & _ & Hcut).
  destruct (Hcut H1) as (Heq & _).
  split; [rewrite Heq; reflexivity|]. split; [exact H2|].
  destruct (truncateLabel_bounds "short" 15) as (_ & Hfit & _).
  exact (Hfit H2).
Defined.
End LabelFacts.

(** ** Dragging *)
Section DragFacts.
Import JS KnowledgeGraph.
Variable physics : list node -> nat -> Q * Q.

(** X14.  A node that is dragged to a pointer position, with a tick of
    the simulation before it is released, ends exactly at that position
    and free of its pin, whatever the forces; what the backend said
    about the node is untouched, and no other node is pinned or
    released by the gesture. *)
Theorem dragged_node_ends_at_pointer (active : bool) (i : nat)
  (ex ey : Q) (st : state) (n : node) :
  nodes st !! i = Some n ->
  let st' := dragEnd active i (tick physics (drag i ex ey st)) in
  (exists n',
      nodes st' !! i = Some n'
      /\ position n' = (Some ex, Some ey)
      /\ fx n' = None /\ fy n' = None
      /\ payload n' = payload n
      /\ connections n' = connections n)
  /\ (forall j m, j <> i -> nodes st !! j = Some m ->
        exists m', nodes st' !! j = Some m'
                   /\ fx m' = fx m /\ fy m' = fy m
                   /\ payload m' = payload m).
Proof.
  intros Hn st'.
  assert (Hnodes : nodes st'
                   = alter (set_pin None None) i
                       (imap (tick_node physics
                                (alter (set_pin (Some ex) (Some ey)) i
                                       (nodes st)))
                             (alter (set_pin (Some ex) (Some ey)) i
                                    (nodes st))))
    by (unfold st', dragEnd; destruct active; reflexivity).
  rewrite Hnodes. split.
  - eexists. split.
    + rewrite list_lookup_alter_eq, list_lookup_imap,
        list_lookup_alter_eq, Hn. reflexivity.
    + repeat split.
  - intros j m Hj Hm. eexists. split.
    + rewrite list_lookup_alter_ne, list_lookup_imap,
        list_lookup_alter_ne, Hm by congruence. reflexivity.
    + repeat split.
Qed.
End DragFacts.

Section DragExamples.
Import JS KnowledgeGraph.

Lemma dragged_node_ends_at_pointer_witness :
  let st := Sample.after Sample.pair in
  let st' := dragEnd false 1
               (tick (fun _ _ => (0, 0)%Q) (drag 1 (120 # 1) (80 # 1) st)) in
  nodes st !! 1%nat
  = Some (set_position (Some 0%Q) (Some 0%Q)
            (set_connections 1 (Sample.plain "B" "vc")))
  /\ exists n', nodes st' !! 1%nat = Some n'
                /\ position n' = (Some (120 # 1)%Q, Some (80 # 1)%Q)
                /\ fx n' = None.
Proof.
  intros st st'.
  assert (Hn : nodes st !! 1%nat
               = Some (set_position (Some 0%Q) (Some 0%Q)
                         (set_connections 1 (Sample.plain "B" "vc"))))
    by reflexivity.
  split; [exact Hn|].
  destruct (dragged_node_ends_at_pointer (fun _ _ => (0, 0)%Q) false 1
              (120 # 1)%Q (80 # 1)%Q st _ Hn)
    as [(n' & Hl & Hp & Hfx & _) _].
  exists n'. auto.
Defined.
End DragExamples.

(** ** The search timer: what happens to a pending search *)
Section PendingSearch.
Import JS Sidebar.

Lemma performSearch_frame (w : world) :
  timers (performSearch w) = timers w
  /\ now (performSearch w) = now w
  /\ next_handle (performSearch w) = next_handle w.
Proof.
  unfold performSearch, call_onSearch.
  destruct (truthy _); simpl; try destruct (onSearch _); repeat split.
Qed.

Lemma advance_single_timer (n : nat) (w : world) (h d : nat) :
  timers w = [(h, d)] -> now w < d -> d <= now w + n ->
  advance n w = set_now (now w + n) (performSearch (fired d w)).
Proof.
  intros Ht Hlo Hhi.
  replace n with ((d - now w - 1) + 1 + (now w + n - d)) by lia.
  rewrite !advance_add.
  rewrite (advance_idle (d - now w - 1))
    by (intros h' d' Hin; rewrite Ht in Hin;
        destruct Hin as [[= <- <-]|[]]; lia).
  simpl advance at 2. unfold tick at 1. simpl.
  rewrite Ht. simpl.
  replace (d <=? S (now w + (d - now w - 1)))%nat with true
    by (symmetry; apply Nat.leb_le; lia).
  simpl.
  replace (S (now w + (d - now w - 1))) with d by lia.
  change {| sb := sb w; now := d; next_handle := next_handle w;
            timers := []; issued := issued w; inflight := inflight w;
            trace := trace w |} with (fired d w).
  destruct (performSearch_frame (fired d w)) as (Hpt & Hpn & _).
  rewrite advance_idle
    by (intros h' d' Hin; rewrite Hpt in Hin; destruct Hin).
  rewrite Hpn. simpl. unfold set_now. f_equal. lia.
Qed.

Lemma typed_and_waiting (v : string) (gap : nat) (w : world) :
  debounced w -> v <> "" -> gap < 300 ->
  let w2 := advance gap (onInput v w) in
  timers w2 = [(next_handle w, now w + 300)]
  /\ now w2 = now w + gap
  /\ issued w2 = issued w
  /\ searchQuery (this (sb w2)) = v
  /\ selectedTheme (this (sb w2)) = selectedTheme (this (sb w))
  /\ semanticToggle_checked (doc (sb w2))
     = semanticToggle_checked (doc (sb w))
  /\ onSearch (this (sb w2)) = onSearch (this (sb w))
  /\ trace w2 = trace w.
Proof.
  intros Hd Hv Hg w2.
  destruct (onInput_spec v w Hd) as (Ht & Hi & Hn & Hq & Hth & Hsem & _).
  rewrite (truthy_nonempty v Hv) in Ht.
  assert (Hw2 : w2 = set_now (now w + gap) (onInput v w)).
  { unfold w2. rewrite advance_idle; [rewrite Hn; reflexivity|].
    intros h d Hin. rewrite Ht in Hin.
    destruct Hin as [[= <- <-]|[]]. lia. }
  rewrite Hw2. simpl.
  repeat (split; [assumption || reflexivity|]).
  split.
  - unfold onInput. rewrite (truthy_nonempty v Hv). simpl.
    destruct (searchTimeout _); reflexivity.
  - unfold onInput. rewrite (truthy_nonempty v Hv). simpl.
    destruct (searchTimeout _); reflexivity.
Qed.

(** X15.  A search that is still waiting for its delay is dropped when
    the clear button is clicked: the timer is not cancelled, but when it
    fires it finds the text empty and sends nothing.  All the user's
    typing has caused is that the search callback is told twice that
    there is no search. *)
Theorem clear_click_drops_pending_search (v : string) (gap : nat)
  (w : world) :
  debounced w -> v <> "" -> gap < 300 ->
  let w' := advance 300 (onClearClick (advance gap (onInput v w))) in
  issued w' = issued w
  /\ timers w' = []
  /\ searchQuery (this (sb w')) = ""
  /\ searchResults_shown (doc (sb w')) = false
  /\ trace w'
     = trace w ++ (if onSearch (this (sb w))
                   then [EvSearch None; EvSearch None] else []).
Proof.
  intros Hd Hv Hg w'.
  destruct (typed_and_waiting v gap w Hd Hv Hg)
    as (Ht & Hn & Hi & _ & _ & _ & Hcb & Htr).
  set (w2 := advance gap (onInput v w)) in *.
  assert (Hc : timers (onClearClick w2) = timers w2
               /\ now (onClearClick w2) = now w2)
    by (unfold onClearClick, call_onSearch; simpl;
        destruct (onSearch _); split; reflexivity).
  destruct Hc as [Hct Hcn].
  unfold w'.
  rewrite (advance_single_timer 300 (onClearClick w2) (next_handle w)
             (now w + 300)) by (rewrite ?Hct, ?Hcn, ?Hn; (exact Ht || lia)).
  unfold onClearClick, performSearch, call_onSearch.
  destruct (onSearch (this (sb w))) eqn:Ecb;
    simpl; rewrite ?Hcb; simpl; rewrite ?Hcb; simpl;
    rewrite ?Hi, ?Htr, <- ?app_assoc; repeat split.
  symmetry. apply app_nil_r.
Qed.

Lemma clear_click_drops_pending_search_witness :
  debounced wired /\ "alp" <> "" /\ 120 < 300
  /\ issued (advance 300 (onClearClick (advance 120 (onInput "alp" wired))))
     = [].
Proof.
  assert (Hne : "alp" <> "") by discriminate.
  assert (Hg : 120 < 300) by lia.
  split; [exact wired_debounced|]. split; [exact Hne|]. split; [exact Hg|].
  destruct (clear_click_drops_pending_search "alp" 120 wired
              wired_debounced Hne Hg) as [Hi _].
  exact Hi.
Defined.

(** X16.  Selecting a theme while a search is waiting for its delay
    drops that search as well: nothing is sent, and when the abandoned
    timer fires the search callback is told that there is no search, so
    a highlight on the graph is reset 300 ms after the last keystroke
    although [selectTheme] itself never calls that callback. *)
Theorem theme_selection_drops_pending_search (v : string) (gap : nat)
  (themeName : option string) (w : world) :
  debounced w -> v <> "" -> gap < 300 ->
  let w3 := fst (selectTheme themeName (advance gap (onInput v w))) in
  let w' := advance 300 w3 in
  issued w' = issued w
  /\ timers w' = []
  /\ trace w'
     = trace w3 ++ (if onSearch (this (sb w)) then [EvSearch None] else [])
  /\ (forall ids, ~ In (EvSearch ids) (trace w) ->
                  ~ In (EvSearch ids) (trace w3)).
Proof.
  intros Hd Hv Hg w3 w'.
  destruct (typed_and_waiting v gap w Hd Hv Hg)
    as (Ht & Hn & Hi & _ & _ & _ & Hcb & Htr).
  set (w2 := advance gap (onInput v w)) in *.
  assert (Hs : timers w3 = timers w2 /\ now w3 = now w2
               /\ issued w3 = issued w2
               /\ searchQuery (this (sb w3)) = ""
               /\ onSearch (this (sb w3)) = onSearch (this (sb w2))
               /\ (trace w3 = trace w2
                   \/ exists s, trace w3
                                = trace w2 ++ [EvThemeClick themeName s])).
  { unfold w3, selectTheme.
    destruct themeName as [name|];
      [|destruct (map deactivate _)]; simpl;
      try destruct (onThemeClick _); simpl;
      repeat (split; [reflexivity|]); eauto. }
  destruct Hs as (Hst & Hsn & Hsi & Hsq & Hscb & Hstr).
  unfold w'.
  rewrite (advance_single_timer 300 w3 (next_handle w) (now w + 300))
    by (rewrite ?Hst, ?Hsn, ?Hn; (exact Ht || lia)).
  unfold performSearch, call_onSearch. simpl.
  rewrite Hsq, Hscb, Hcb. simpl.
  split.
  { destruct (onSearch (this (sb w))); simpl; congruence. }
  split.
  { destruct (onSearch (this (sb w))); reflexivity. }
  split.
  { destruct (onSearch (this (sb w))); simpl;
      [reflexivity|symmetry; apply app_nil_r]. }
  intros ids Hno Hin.
  destruct Hstr as [Hsame|[s Hadd]].
  - rewrite Hsame, Htr in Hin. exact (Hno Hin).
  - rewrite Hadd, Htr in Hin. apply in_app_or in Hin.
    destruct Hin as [Hin|[Hin|[]]]; [exact (Hno Hin)|discriminate Hin].
Qed.

Lemma theme_selection_drops_pending_search_witness :
  debounced wired /\ "alp" <> "" /\ 120 < 300
  /\ trace (advance 300
              (fst (selectTheme (Some "ml")
                      (advance 120 (onInput "alp" wired)))))
     = trace (fst (selectTheme (Some "ml")
                     (advance 120 (onInput "alp" wired))))
       ++ [EvSearch None].
Proof.
  assert (Hne : "alp" <> "") by discriminate.
  assert (Hg : 120 < 300) by lia.
  split; [exact wired_debounced|]. split; [exact Hne|]. split; [exact Hg|].
  destruct (theme_selection_drops_pending_search "alp" 120 (Some "ml")
              wired wired_debounced Hne Hg) as (_ & _ & Htr & _).
  exact Htr.
Defined.

(** X17.  The toggle between keyword and semantic search is not
    debounced.  Flipping it while a search for a text is waiting for its
    delay sends a request at once, and the timer sends the same request
    again when it fires: two identical requests for one text. *)
Theorem semantic_toggle_duplicates_pending_search (v : string)
  (gap : nat) (checked : bool) (w : world) :
  debounced w -> v <> "" -> gap < 300 ->
  let w' := advance 300
              (onSemanticChange checked (advance gap (onInput v w))) in
  let r := {| req_q := v;
              req_theme := req_theme (request_for v (sb w));
              req_semantic := checked; req_limit := 25 |} in
  issued w' = issued w ++ [r; r] /\ timers w' = [].
Proof.
  intros Hd Hv Hg w' r.
  destruct (typed_and_waiting v gap w Hd Hv Hg)
    as (Ht & Hn & Hi & Hq & Hth & _ & _ & _).
  set (w2 := advance gap (onInput v w)) in *.
  assert (Hw3 : onSemanticChange checked w2
                = performSearch (with_sb (set_semantic checked (sb w2)) w2)).
  { unfold onSemanticChange. simpl. rewrite Hq, (truthy_nonempty v Hv).
    reflexivity. }
  set (w3 := onSemanticChange checked w2) in *.
  assert (Hf : timers w3 = timers w2 /\ now w3 = now w2).
  { rewrite Hw3.
    destruct (performSearch_frame
                (with_sb (set_semantic checked (sb w2)) w2))
      as (H1 & H2 & _). split; assumption. }
  destruct Hf as [Hft Hfn].
  unfold w'.
  rewrite (advance_single_timer 300 w3 (next_handle w) (now w + 300))
    by (rewrite ?Hft, ?Hfn, ?Hn; (exact Ht || lia)).
  rewrite Hw3. unfold performSearch. simpl.
  rewrite Hq, (truthy_nonempty v Hv). simpl.
  rewrite Hq, (truthy_nonempty v Hv). simpl.
  rewrite Hi, Hth, <- app_assoc. split; reflexivity.
Qed.

Lemma semantic_toggle_duplicates_pending_search_witness :
  debounced wired /\ "alpha" <> "" /\ 50 < 300
  /\ length (issued (advance 300
                       (onSemanticChange true
                          (advance 50 (onInput "alpha" wired)))))
     = 2.
Proof.
  assert (Hne : "alpha" <> "") by discriminate.
  assert (Hg : 50 < 300) by lia.
  split; [exact wired_debounced|]. split; [exact Hne|]. split; [exact Hg|].
  destruct (semantic_toggle_duplicates_pending_search "alpha" 50 true
              wired wired_debounced Hne Hg) as [Hi _].
  rewrite Hi. reflexivity.
Defined.
End PendingSearch.

(** ** Requests: what is never sent *)
Section RequestFacts.
Import JS Sidebar.

Lemma truthy_true_nonempty (s : string) : truthy s = true -> s <> "".
Proof.
  unfold truthy. destruct (String.eqb_spec s ""); [discriminate|auto].
Qed.

Lemma performSearch_proper (w : world) :
  all_proper w -> all_proper (performSearch w).
Proof.
  intros H. unfold performSearch, call_onSearch.
  destruct (truthy (searchQuery (this (sb w)))) eqn:E; simpl.
  - intros r Hr. simpl in Hr. apply in_app_or in Hr.
    destruct Hr as [Hr|[<-|[]]]; [auto|].
    split; [apply truthy_true_nonempty; exact E|reflexivity].
  - destruct (onSearch _); exact H.
Qed.

Lemma fire_proper {A : Type} (due : list A) (w : world) :
  all_proper w ->
  all_proper (fold_left (fun w _ => performSearch w) due w).
Proof.
  revert w. induction due as [|e due IH]; intros w H; simpl; [exact H|].
  apply IH, performSearch_proper, H.
Qed.

Lemma step_proper (w w' : world) :
  all_proper w -> step w w' -> all_proper w'.
Proof.
  intros H Hs. destruct Hs.
  - unfold onInput, setTimeout, call_onSearch, clearTimeout.
    destruct (truthy v); simpl;
      destruct (searchTimeout _); simpl;
      try destruct (onSearch _); exact H.
  - unfold tick. apply fire_proper. exact H.
  - unfold respond. destruct (existsb _ _); [|exact H].
    destruct o; unfold call_onSearch; simpl;
      try destruct (onSearch _); exact H.
  - unfold onClearClick, call_onSearch. simpl.
    destruct (onSearch _); exact H.
  - unfold onSemanticChange. simpl. destruct (truthy _); [|exact H].
    apply (performSearch_proper (with_sb (set_semantic b (sb w)) w)).
    exact H.
  - unfold selectTheme.
    destruct t as [name|]; [|destruct (map deactivate _)]; simpl;
      try destruct (onThemeClick _); exact H.
  - exact H.
  - exact H.
Qed.

(** X18.  Whatever the user types, clicks or toggles and whenever
    answers and timers arrive, the panel never sends a search request
    for an empty text, and every request it sends asks for at most 25
    results. *)
Theorem reachable_requests_proper (w : world) (r : request) :
  reachable w -> In r (issued w) -> req_q r <> "" /\ req_limit r = 25.
Proof.
  intros Hr. revert r.
  induction Hr as [|w w' _ IH Hs].
  - intros r [].
  - exact (step_proper w w' IH Hs).
Qed.

Lemma reachable_requests_proper_witness :
  reachable two_in_flight
  /\ In (request_for "alp" (sb wired)) (issued two_in_flight)
  /\ req_limit (request_for "alp" (sb wired)) = 25.
Proof.
  assert (Hr : reachable two_in_flight).
  { unfold two_in_flight, wired.
    assert (H300 : forall w, reachable w -> reachable (advance 300 w)).
    { generalize 300. intros n. induction n as [|n IH]; intros w Hw;
        simpl; [exact Hw|].
      apply IH. eapply reachable_step; [exact Hw|constructor]. }
    apply H300. eapply reachable_step; [|apply step_input].
    apply H300. eapply reachable_step; [|apply step_input].
    eapply reachable_step; [|apply (step_themes _ (setCallbacks constructed))].
    eapply reachable_step; [|apply step_callbacks].
    apply reachable_constructed. }
  assert (Hin : In (request_for "alp" (sb wired)) (issued two_in_flight))
    by (vm_compute; left; reflexivity).
  split; [exact Hr|]. split; [exact Hin|].
  exact (proj2 (reachable_requests_proper _ _ Hr Hin)).
Defined.
End RequestFacts.

(** ** Theme selection: which items are marked *)
Section ThemeItems.
Import JS Sidebar.

Lemma prefix_spec (n h : string) :
  String.prefix n h = true <-> exists b, h = (n ++ b)%string.
Proof.
  revert h. induction n as [|c n IH]; intros h.
  - split; [intros _; exists h; reflexivity|].
    intros _. destruct h; reflexivity.
  - destruct h as [|c' h]; simpl.
    + split; [discriminate|]. intros [b Hb]. discriminate Hb.
    + destruct (Ascii.ascii_dec c c') as [<-|Hne].
      * rewrite IH. split; intros [b Hb]; exists b.
        -- simpl. now rewrite Hb.
        -- simpl in Hb. now injection Hb.
      * split; [discriminate|]. intros [b Hb]. simpl in Hb.
        injection Hb as Hc _. congruence.
Qed.

(** [includes] is the substring test. *)
Lemma includes_spec (h n : string) :
  includes h n = true <-> exists a b, h = (a ++ n ++ b)%string.
Proof.
  split.
  - induction h as [|c h IH]; intros H; cbn [includes] in H.
    + rewrite orb_false_r in H. apply prefix_spec in H.
      destruct H as [b Hb]. exists "", b. exact Hb.
    + apply orb_true_iff in H. destruct H as [H|H].
      * apply prefix_spec in H. destruct H as [b Hb].
        exists "", b. exact Hb.
      * destruct (IH H) as (a & b & Hab).
        exists (String c a), b. simpl. now rewrite Hab.
  - intros (a & b & ->). induction a as [|c a IH].
    + assert (Hp : String.prefix n (n ++ b) = true)
        by (apply prefix_spec; eauto).
      change ("" ++ n ++ b)%string with (n ++ b)%string.
      revert Hp. generalize (n ++ b)%string as x. intros x Hp.
      destruct x; cbn [includes]; rewrite Hp; reflexivity.
    + change (includes (String c (a ++ n ++ b)) n = true).
      cbn [includes]. rewrite IH. apply orb_true_r.
Qed.

(** X19.  [selectTheme(name)] marks as active every theme item whose
    text contains the name anywhere, and only those; so the item of the
    selected theme is marked, and so is the item of any other theme
    whose name or count happens to contain that text.  The texts of the
    items are not changed.  [selectTheme(null)] marks the first item
    and no other. *)
Theorem selectTheme_marks_items_by_substring (name : string)
  (w : world) (i : nat) (item : theme_item) :
  theme_items (doc (sb w)) !! i = Some item ->
  (exists item',
      theme_items (doc (sb (fst (selectTheme (Some name) w)))) !! i
      = Some item'
      /\ item_text item' = item_text item
      /\ (item_active item' = true
          <-> exists a b, item_text item = (a ++ name ++ b)%string))
  /\ (exists item',
        theme_items (doc (sb (fst (selectTheme None w)))) !! i = Some item'
        /\ item_text item' = item_text item
        /\ (item_active item' = true <-> i = 0)).
Proof.
  intros Hi. split.
  - unfold selectTheme. simpl.
    destruct (onThemeClick (this (sb w))); simpl;
      (eexists; split;
       [rewrite !list_lookup_fmap, Hi; reflexivity|]);
      simpl; rewrite <- includes_spec;
      destruct (includes (item_text item) name) eqn:E; simpl;
      rewrite ?E; (split; [reflexivity|]); split; congruence.
  - unfold selectTheme. simpl.
    destruct (theme_items (doc (sb w))) as [|first rest] eqn:Eitems;
      [discriminate Hi|].
    simpl. destruct i as [|j]; simpl in Hi.
    + injection Hi as ->.
      destruct (onThemeClick (this (sb w))); simpl;
        (eexists; split; [reflexivity|]); simpl;
        (split; [reflexivity|tauto]).
    + destruct (onThemeClick (this (sb w))); simpl;
        (eexists; split; [rewrite list_lookup_fmap, Hi; reflexivity|]);
        simpl; (split; [reflexivity|]); split; discriminate.
Qed.

Lemma selectTheme_marks_items_by_substring_witness :
  let w := renderThemes
             [{| item_text := "All Themes 5"; item_active := true |};
              {| item_text := "AI Infrastructure Moats 2";
                 item_active := false |};
              {| item_text := "Enterprise AI Adoption 3";
                 item_active := false |}] wired in
  theme_items (doc (sb w)) !! 2%nat
  = Some {| item_text := "Enterprise AI Adoption 3";
            item_active := false |}
  /\ map item_active
       (theme_items
          (doc (sb (fst (selectTheme (Some "AI Infrastructure Moats") w)))))
     = [false; true; false]
  /\ exists item',
      theme_items (doc (sb (fst (selectTheme (Some "AI") w)))) !! 2%nat
      = Some item'
      /\ item_active item' = true.
Proof.
  intros w.
  assert (Hi : theme_items (doc (sb w)) !! 2%nat
               = Some {| item_text := "Enterprise AI Adoption 3";
                         item_active := false |}) by reflexivity.
  split; [exact Hi|]. split; [vm_compute; reflexivity|].
  destruct (selectTheme_marks_items_by_substring "AI" w 2 _ Hi)
    as [(item' & Hl & _ & Hact) _].
  exists item'. split; [exact Hl|].
  apply Hact. exists "Enterprise ", " Adoption 3". reflexivity.
Defined.
End ThemeItems.

(** ** The viewer after an error *)
Section ViewerFacts.
Import JS InsightViewer.
Variable marked_parse : string -> string.
Variable processWikilinks : string -> string.

Lemma render_keeps_empty_text (i : insight) (v : viewer) :
  empty_text (fst (render marked_parse processWikilinks i v))
  = empty_text v.
Proof. unfold render. destruct (ins_novelty_score i); reflexivity. Qed.

Lemma act_keeps_failure_message (a : action) (v : viewer) :
  empty_text v = failure_message ->
  empty_text (act marked_parse processWikilinks a v) = failure_message.
Proof.
  intros H. destruct a as [|r]; simpl; [exact H|].
  unfold loadInsight.
  destruct r as [|[|] [i|]]; try reflexivity.
  pose proof (render_keeps_empty_text i (set_currentInsight i v)) as Hk.
  destruct (render _ _ i _) as [v' [|]]; simpl in *; [|reflexivity].
  rewrite Hk. exact H.
Qed.

(** X20.  Once a load has failed, the placeholder of the viewer says
    "Failed to load insight" for good: no later [clear()] and no later
    load, successful or not, puts the original placeholder text back.
    After a later [clear()] the empty viewer therefore shows the error
    message. *)
Theorem failure_message_sticks (r : fetched) (actions : list action)
  (v : viewer) :
  fetch_failed r = true ->
  let v' := run marked_parse processWikilinks actions
              (fst (loadInsight marked_parse processWikilinks r v)) in
  empty_text v' = failure_message
  /\ empty_text (clear v') = failure_message
  /\ empty_display (clear v') = "flex".
Proof.
  intros Hf v'.
  assert (Hgen : forall u, empty_text u = failure_message ->
            empty_text (fold_left
                          (fun v a => act marked_parse processWikilinks a v)
                          actions u) = failure_message).
  { induction actions as [|a actions IH]; intros u Hu; simpl; [exact Hu|].
    apply IH. apply act_keeps_failure_message. exact Hu. }
  assert (H : empty_text v' = failure_message).
  { unfold v', run.
    rewrite (loadInsight_failed marked_parse processWikilinks r v Hf).
    simpl. apply Hgen. reflexivity. }
  split; [exact H|]. split; [exact H|reflexivity].
Qed.
End ViewerFacts.

Section ViewerExamples.
Import JS InsightViewer.

(** An insight as the backend sends it, and one that lacks its score. *)
Lemma failure_message_sticks_witness :
  let good := {| ins_id := "model-serving";
                 source_title := Some "Model Serving in 2025";
                 ins_theme := "AI Infrastructure Moats";
                 ins_novelty_score := Some (68 # 100)%Q;
                 date_added := Some "2025-02-01";
                 source_url := None; concepts := ["routing"]; tags := [];
                 content := Some "# Model Serving"; html_content := None;
                 filename := "model-serving.md" |} in
  let v' := run Sample.verbatim Sample.verbatim
              [Load (Response true (Some good)); Clear]
              (fst (loadInsight Sample.verbatim Sample.verbatim
                      NetworkError Sample.pane)) in
  fetch_failed NetworkError = true
  /\ empty_text Sample.pane = "Select an insight"
  /\ empty_text v' = failure_message
  /\ empty_display v' = "flex".
Proof.
  intros good v'.
  assert (Hf : fetch_failed NetworkError = true) by reflexivity.
  split; [exact Hf|]. split; [reflexivity|].
  destruct (failure_message_sticks Sample.verbatim Sample.verbatim
              NetworkError [Load (Response true (Some good)); Clear]
              Sample.pane Hf) as (H & _).
  split; [exact H|reflexivity].
Defined.
End ViewerExamples.

Section PartialRender.
Import JS InsightViewer.
Variable marked_parse : string -> string.
Variable processWikilinks : string -> string.

(** X21.  When the backend answers with an insight that has no novelty
    score, the load ends in the error state although the request
    succeeded, and it leaves the viewer half updated: the insight is
    already the current one (the copy-link and open-in-vault buttons
    act on it) and the title and theme are already written, while the
    body, the chips and the source row are still those of the insight
    shown before. *)
Theorem load_without_score_is_partial (i : insight) (v : viewer) :
  ins_novelty_score i = None ->
  let res := loadInsight marked_parse processWikilinks
               (Response true (Some i)) v in
  snd res = Normal
  /\ empty_text (fst res) = failure_message
  /\ empty_display (fst res) = "flex"
  /\ detail_display (fst res) = "none"
  /\ currentInsight (fst res) = Some i
  /\ title_text (fst res) = or_else (source_title i) (ins_id i)
  /\ theme_text (fst res) = ins_theme i
  /\ content_html (fst res) = content_html v
  /\ concepts_list (fst res) = concepts_list v
  /\ tags_list (fst res) = tags_list v
  /\ source_row_display (fst res) = source_row_display v.
Proof.
  intros H res. unfold res, loadInsight, render. rewrite H. simpl.
  repeat split.
Qed.
End PartialRender.

Section PartialRenderExample.
Import JS InsightViewer.

Lemma load_without_score_is_partial_witness :
  let i := {| ins_id := "draft"; source_title := None;
              ins_theme := "Sources"; ins_novelty_score := None;
              date_added := None; source_url := None; concepts := [];
              tags := []; content := Some "text"; html_content := None;
              filename := "draft.md" |} in
  let res := loadInsight Sample.verbatim Sample.verbatim
               (Response true (Some i)) Sample.pane in
  ins_novelty_score i = None
  /\ title_text (fst res) = "draft"
  /\ empty_text (fst res) = failure_message
  /\ currentInsight (fst res) = Some i.
Proof.
  intros i res.
  assert (H : ins_novelty_score i = None) by reflexivity.
  destruct (load_without_score_is_partial Sample.verbatim Sample.verbatim
              i Sample.pane H)
    as (_ & He & _ & _ & Hc & Ht & _).
  split; [exact H|]. split; [exact Ht|]. split; [exact He|exact Hc].
Defined.
End PartialRenderExample.

(** ** The star row *)
Section Stars.
Import InsightViewer.
Local Open Scope Q_scope.

Lemma round_range (score : Q) :
  0 <= score -> score <= 1 -> (0 <= round (score * 5) <= 5)%Z.
Proof.
  intros H0 H1. unfold round.
  assert (Hlo : (1 # 2) <= score * 5 + (1 # 2)).
  { destruct score as [a b]. unfold Qle, Qmult, Qplus in *.
    simpl in *. lia. }
  assert (Hhi : score * 5 + (1 # 2) <= 11 # 2).
  { destruct score as [a b]. unfold Qle, Qmult, Qplus in *.
    simpl in *. lia. }
  apply Qfloor_resp_le in Hlo. apply Qfloor_resp_le in Hhi.
  change (Qfloor (1 # 2)) with 0%Z in Hlo.
  change (Qfloor (11 # 2)) with 5%Z in Hhi. lia.
Qed.

Lemma round_above (score : Q) :
  11 # 10 <= score -> (6 <= round (score * 5))%Z.
Proof.
  intros H. unfold round.
  assert (Hlo : 6 <= score * 5 + (1 # 2)).
  { destruct score as [a b]. unfold Qle, Qmult, Qplus in *.
    simpl in *. lia. }
  apply Qfloor_resp_le in Hlo. exact Hlo.
Qed.

Lemma round_below (score : Q) :
  score < - (1 # 10) -> (round (score * 5) < 0)%Z.
Proof.
  intros H. unfold round.
  assert (Hhi : score * 5 + (1 # 2) < 0).
  { destruct score as [a b]. unfold Qlt, Qmult, Qplus, Qopp in *.
    simpl in *. lia. }
  pose proof (Qfloor_le (score * 5 + (1 # 2))) as Hf.
  assert (Hneg : inject_Z (Qfloor (score * 5 + (1 # 2))) < 0)
    by (eapply Qle_lt_trans; eassumption).
  unfold Qlt in Hneg. simpl in Hneg.
  rewrite Z.mul_1_r in Hneg. exact Hneg.
Qed.

(** X22.  For a novelty score between 0 and 1 the star row has exactly
    five symbols, the filled ones first, their number being the score
    times five, rounded.  For a score of 1.1 or more, or below -0.1,
    building the row throws. *)
Theorem getNoveltyStars_five_or_throws (score : Q) :
  (0 <= score -> score <= 1 ->
   exists k : nat,
     (k <= 5)%nat
     /\ Z.of_nat k = round (score * 5)
     /\ getNoveltyStars score
        = Some (List.repeat Filled k ++ List.repeat Hollow (5 - k)))
  /\ (11 # 10 <= score -> getNoveltyStars score = None)
  /\ (score < - (1 # 10) -> getNoveltyStars score = None).
Proof.
  unfold getNoveltyStars, repeat_star. repeat split.
  - intros H0 H1. pose proof (round_range score H0 H1) as Hr.
    exists (Z.to_nat (round (score * 5))).
    split; [lia|]. split; [lia|].
    destruct (Z.ltb_spec (round (score * 5)) 0) as [Hn|_]; [lia|].
    destruct (Z.ltb_spec (5 - round (score * 5)) 0) as [Hn|_]; [lia|].
    do 3 f_equal. lia.
  - intros H. pose proof (round_above score H) as Hr.
    destruct (Z.ltb_spec (round (score * 5)) 0) as [Hn|_]; [reflexivity|].
    destruct (Z.ltb_spec (5 - round (score * 5)) 0) as [_|Hn];
      [reflexivity|lia].
  - intros H. pose proof (round_below score H) as Hr.
    destruct (Z.ltb_spec (round (score * 5)) 0) as [_|Hn];
      [reflexivity|lia].
Qed.

Lemma getNoveltyStars_five_or_throws_witness :
  0 <= 68 # 100 /\ 68 # 100 <= 1
  /\ getNoveltyStars (68 # 100)
     = Some [Filled; Filled; Filled; Hollow; Hollow]
  /\ 11 # 10 <= 12 # 10
  /\ getNoveltyStars (12 # 10) = None.
Proof.
  assert (H0 : 0 <= 68 # 100) by discriminate.
  assert (H1 : 68 # 100 <= 1) by discriminate.
  assert (H2 : 11 # 10 <= 12 # 10) by discriminate.
  split; [exact H0|]. split; [exact H1|].
  destruct (getNoveltyStars_five_or_throws (68 # 100)) as (Hin & _).
  destruct (Hin H0 H1) as (k & _ & _ & Hk).
  split; [vm_compute; reflexivity|]. split; [exact H2|].
  destruct (getNoveltyStars_five_or_throws (12 # 10)) as (_ & Hup & _).
  exact (Hup H2).
Defined.
End Stars.

(** ** Cross-reference links *)

(** Appending to a string that starts with a known character. *)
Ltac push_append :=
  repeat match goal with
  | |- context [String.append (String ?c ?a) ?b] =>
      change (String.append (String c a) b)
        with (String c (String.append a b))
  | |- context [String.append EmptyString ?b] =>
      change (String.append EmptyString b) with b
  end.

Section WikilinkFacts.
Import JS InsightViewer.
Variable trim : string -> string.

Lemma string_app_assoc (a b c : string) :
  ((a ++ b) ++ c)%string = (a ++ b ++ c)%string.
Proof.
  induction a as [|x a IH]; push_append; [reflexivity|now rewrite IH].
Qed.

Lemma span_append (p : Ascii.ascii -> bool) (s : string) :
  s = (fst (span p s) ++ snd (span p s))%string.
Proof.
  induction s as [|c s IH]; cbn [span]; [reflexivity|].
  destruct (p c); cbn [fst snd]; push_append;
    [now rewrite <- IH|reflexivity].
Qed.

Lemma span_every (p : Ascii.ascii -> bool) (a b : string) :
  every p a = true ->
  match b with String c _ => p c = false | EmptyString => True end ->
  span p (a ++ b) = (a, b).
Proof.
  intros Ha Hb. induction a as [|c a IH]; push_append.
  - destruct b as [|c b]; cbn [span]; [reflexivity|now rewrite Hb].
  - cbn [every] in Ha. apply andb_true_iff in Ha. destruct Ha as [Hc Ha].
    cbn [span]. rewrite Hc, (IH Ha). reflexivity.
Qed.

Lemma starts_with_two_shape (x : Ascii.ascii) (s : string) :
  starts_with_two (fun c => Ascii.eqb c x) s = true ->
  s = String x (String x (drop2 s)).
Proof.
  destruct s as [|a [|b s]]; simpl; try discriminate.
  intros H. apply andb_true_iff in H. destruct H as [Ha Hb].
  apply Ascii.eqb_eq in Ha, Hb. now subst.
Qed.

(** What a match covers: a link as written, at the head of the text. *)
Lemma match_link_shape (s target : string) (display : option string)
  (matched : nat) :
  match_link s = Some (target, display, matched) ->
  exists rest, s = (written_link target display ++ rest)%string.
Proof.
  unfold match_link.
  destruct (starts_with_two is_open s) eqn:Ho; [|discriminate].
  apply (starts_with_two_shape "["%char) in Ho.
  pose proof (span_append in_target (drop2 s)) as Ht.
  destruct (span in_target (drop2 s)) as [t s2]. cbn [fst snd] in Ht.
  destruct t as [|c t]; [discriminate|].
  destruct (starts_with_two is_close s2) eqn:Hc.
  - intros [= <- <- <-].
    apply (starts_with_two_shape "]"%char) in Hc.
    exists (drop2 s2). rewrite Ho, Ht, Hc. unfold written_link.
    push_append. rewrite !string_app_assoc. push_append. reflexivity.
  - destruct s2 as [|b s3]; [discriminate|].
    destruct (is_bar b) eqn:Hb; [|discriminate].
    apply Ascii.eqb_eq in Hb. subst b.
    pose proof (span_append in_display s3) as Hd.
    destruct (span in_display s3) as [d s4]. cbn [fst snd] in Hd.
    destruct d as [|e d]; [discriminate|].
    destruct (starts_with_two is_close s4) eqn:Hc4; [|discriminate].
    intros [= <- <- <-].
    apply (starts_with_two_shape "]"%char) in Hc4.
    exists (drop2 s4). rewrite Ho, Ht, Hd, Hc4. unfold written_link.
    push_append. rewrite !string_app_assoc. push_append.
    rewrite !string_app_assoc. push_append. reflexivity.
Qed.

Lemma match_link_includes (s : string)
  (m : string * option string * nat) :
  match_link s = Some m ->
  includes s "[[" = true /\ includes s "]]" = true.
Proof.
  destruct m as [[t d] n]. intros H.
  apply match_link_shape in H. destruct H as [rest ->].
  split; apply includes_spec.
  - exists "", (t ++ match d with Some u => "|" ++ u | None => "" end
                ++ "]]" ++ rest)%string.
    unfold written_link. push_append. rewrite !string_app_assoc.
    reflexivity.
  - exists ("[[" ++ t ++ match d with Some u => "|" ++ u | None => "" end)
           %string, rest.
    unfold written_link. push_append. rewrite !string_app_assoc.
    reflexivity.
Qed.

Lemma includes_tail (c : Ascii.ascii) (s n : string) :
  includes (String c s) n = false -> includes s n = false.
Proof.
  cbn [includes]. intros H. apply orb_false_iff in H. apply H.
Qed.

Lemma scan_without (needle s : string) :
  (forall u m, match_link u = Some m -> includes u needle = true) ->
  includes s needle = false -> scan trim 0 s = s.
Proof.
  intros Hm. induction s as [|c s IH]; intros H; [reflexivity|].
  cbn [scan]. destruct (match_link (String c s)) as [m|] eqn:E.
  - apply Hm in E. congruence.
  - f_equal. apply IH. eapply includes_tail, H.
Qed.

(** X23.  A text that nowhere has two opening brackets in a row, or
    nowhere has two closing brackets in a row, comes back from the link
    replacement unchanged. *)
Theorem text_without_brackets_unchanged (contentText : string) :
  includes contentText "[[" = false \/ includes contentText "]]" = false ->
  replace_wikilinks trim contentText = contentText.
Proof.
  unfold replace_wikilinks. intros [H|H].
  - apply (scan_without "[["); [|exact H].
    intros u m E. apply (match_link_includes u m E).
  - apply (scan_without "]]"); [|exact H].
    intros u m E. apply (match_link_includes u m E).
Qed.

Lemma scan_copy (pre s : string) :
  every not_open pre = true ->
  scan trim 0 (pre ++ s) = (pre ++ scan trim 0 s)%string.
Proof.
  induction pre as [|c pre IH]; intros H; [reflexivity|].
  cbn [every] in H. apply andb_true_iff in H. destruct H as [Hc H].
  push_append. cbn [scan].
  assert (E : match_link (String c (pre ++ s)) = None).
  { unfold match_link. unfold not_open in Hc.
    apply negb_true_iff in Hc.
    destruct (pre ++ s)%string; cbn [starts_with_two]; rewrite ?Hc;
      reflexivity. }
  rewrite E, (IH H). reflexivity.
Qed.

Lemma scan_skip (a b : string) :
  scan trim (String.length a) (a ++ b) = scan trim 0 b.
Proof.
  induction a as [|c a IH]; [reflexivity|].
  push_append. cbn [String.length scan]. exact IH.
Qed.

Lemma match_written_link (t post : string) (d : option string) :
  t <> "" -> every in_target t = true ->
  match d with
  | Some u => u <> "" /\ every in_display u = true
  | None => True
  end ->
  match_link (written_link t d ++ post)
  = Some (t, d, String.length (written_link t d)).
Proof.
  intros Hne Ht Hd. unfold match_link, written_link. push_append.
  cbn [starts_with_two drop2].
  change (is_open "["%char) with true. cbn [andb].
  rewrite !string_app_assoc.
  destruct d as [u|].
  - destruct Hd as [Hu Hd]. rewrite !string_app_assoc. push_append.
    rewrite (span_every in_target t _ Ht) by reflexivity.
    destruct t as [|c t]; [congruence|].
    cbn [starts_with_two].
    change (is_bar "|"%char) with true.
    change (is_close "|"%char) with false.
    replace (match (u ++ String "]"%char (String "]"%char post))%string
             with
             | EmptyString => false
             | String b _ => false && is_close b
             end) with false by (destruct (u ++ _)%string; reflexivity).
    rewrite (span_every in_display u _ Hd) by reflexivity.
    destruct u as [|e u]; [congruence|].
    cbn [starts_with_two].
    change (is_close "]"%char) with true. cbn [andb].
    do 2 f_equal. cbn [String.length].
    rewrite !string_length_append. cbn [String.length].
    rewrite !string_length_append. cbn [String.length]. lia.
  - push_append.
    rewrite (span_every in_target t _ Ht) by reflexivity.
    destruct t as [|c t]; [congruence|].
    cbn [starts_with_two].
    change (is_close "]"%char) with true. cbn [andb].
    do 2 f_equal. cbn [String.length].
    rewrite !string_length_append. cbn [String.length]. lia.
Qed.

(** X24.  A well-formed link is replaced where it stands.  Before it,
    a text without an opening bracket is copied; the link, written
    with a non-empty target free of closing brackets and bars and, if
    it has one, a non-empty display text free of closing brackets,
    becomes one anchor whose address is the trimmed target and whose
    text is the trimmed display text, or the trimmed target when no
    display text is given; and the replacement goes on behind the
    link, on the rest of the text alone. *)
Theorem written_link_becomes_anchor (pre t post : string)
  (d : option string) :
  every not_open pre = true ->
  t <> "" -> every in_target t = true ->
  match d with
  | Some u => u <> "" /\ every in_display u = true
  | None => True
  end ->
  replace_wikilinks trim (pre ++ written_link t d ++ post)
  = (pre
     ++ anchor (trim t) (trim (match d with Some u => u | None => t end))
     ++ replace_wikilinks trim post)%string.
Proof.
  intros Hpre Hne Ht Hd. unfold replace_wikilinks.
  rewrite (scan_copy pre _ Hpre). f_equal.
  pose proof (match_written_link t post d Hne Ht Hd) as E.
  assert (Hw : exists c w, written_link t d = String c w).
  { unfold written_link. push_append. eauto. }
  destruct Hw as (c & w & Hw). rewrite Hw in *.
  change (String c w ++ post)%string with (String c (w ++ post)) in *.
  cbn [scan]. rewrite E. unfold replacement. f_equal.
  cbn [String.length]. rewrite Nat.sub_succ, Nat.sub_0_r.
  apply scan_skip.
Qed.
End WikilinkFacts.

Section WikilinkExamples.
Import JS InsightViewer.

Lemma text_without_brackets_unchanged_witness :
  includes "<p>see [model-serving]] and [roi]</p>" "[[" = false
  /\ replace_wikilinks Sample.verbatim
       "<p>see [model-serving]] and [roi]</p>"
     = "<p>see [model-serving]] and [roi]</p>".
Proof.
  assert (H : includes "<p>see [model-serving]] and [roi]</p>" "[["
              = false) by reflexivity.
  split; [exact H|].
  exact (text_without_brackets_unchanged Sample.verbatim _ (or_introl H)).
Defined.

Lemma written_link_becomes_anchor_witness :
  let pre := "<p>see " in
  let post := " for details</p>" in
  every not_open pre = true
  /\ "roi" <> ""
  /\ every in_target "roi" = true
  /\ ("ROI [frameworks" <> "" /\ every in_display "ROI [frameworks" = true)
  /\ replace_wikilinks Sample.verbatim
       (pre ++ "[[roi|ROI [frameworks]]" ++ post)
     = (pre ++ anchor "roi" "ROI [frameworks" ++ post)%string.
Proof.
  intros pre post.
  assert (H1 : every not_open pre = true) by reflexivity.
  assert (H2 : "roi" <> "") by discriminate.
  assert (H3 : every in_target "roi" = true) by reflexivity.
  assert (H4 : "ROI [frameworks" <> ""
               /\ every in_display "ROI [frameworks" = true)
    by (split; [discriminate|reflexivity]).
  split; [exact H1|]. split; [exact H2|]. split; [exact H3|].
  split; [exact H4|].
  exact (written_link_becomes_anchor Sample.verbatim pre "roi" post
           (Some "ROI [frameworks") H1 H2 H3 H4).
Defined.
End WikilinkExamples.
